(** * vdl: the marketplace search client and the download coordinator

    A shallow embedding of the Python sources

      - [vdl/models/extension.py]            (the [Extension] record),
      - [vdl/downloader/vsix_api_handler.py] (the search client),
      - [vdl/downloader/download_manager.py] (the download coordinator),
      - [vdl/tui/screens/search_screen.py]   (the result list of a search),

    followed by the properties of the specification, each stated on the
    embedded code.  Python exceptions are values of [exn]; a computation
    that may raise returns a [res]; code that also reads or writes shared
    objects runs in the state-and-exception monad [M]. *)

From Stdlib Require Import ZArith Ascii String DecimalString Sorted.
From stdpp Require Import gmap strings list fin_maps.

Local Open Scope string_scope.
Set Warnings "-register-all,-clear-no-such-hyp".

(** ** Python exceptions and the two monads *)

Module Py.

(** The exception classes that the modelled code raises, catches or lets
    through.  [CancelledError] and [KeyboardInterrupt] derive from
    [BaseException] only; every other class derives from [Exception]. *)
Inductive exn : Type :=
| KeyError
| IndexError
| TypeError
| AttributeError
| ValueError (msg : string)
| ValidationError
| JSONDecodeError
| Exception_ (msg : string)
| RequestError (msg : string)
| TimeoutException (msg : string)
| HTTPStatusError (status : Z)
| ClientError (msg : string)
| ClientResponseError (status : Z)
| OSError (msg : string)
| RuntimeError (msg : string)
| DuplicateIds
| BadIdentifier
| CancelledError
| KeyboardInterrupt.

(** [isinstance(e, Exception)] *)
Definition is_Exception (e : exn) : bool :=
  match e with
  | CancelledError | KeyboardInterrupt => false
  | _ => true
  end.

(** [isinstance(e, httpx.RequestError)]: httpx derives
    [TimeoutException] from [TransportError], itself a [RequestError]. *)
Definition is_RequestError (e : exn) : bool :=
  match e with
  | RequestError _ | TimeoutException _ => true
  | _ => false
  end.

Definition is_TimeoutException (e : exn) : bool :=
  match e with
  | TimeoutException _ => true
  | _ => false
  end.

Definition is_CancelledError (e : exn) : bool :=
  match e with
  | CancelledError => true
  | _ => false
  end.

(** [str(e)], as it is spliced into messages. *)
Definition exn_str (e : exn) : string :=
  match e with
  | KeyError => "KeyError"
  | IndexError => "IndexError"
  | TypeError => "TypeError"
  | AttributeError => "AttributeError"
  | ValueError msg => msg
  | ValidationError => "ValidationError"
  | JSONDecodeError => "JSONDecodeError"
  | Exception_ msg => msg
  | RequestError msg => msg
  | TimeoutException msg => msg
  | HTTPStatusError _ => "HTTPStatusError"
  | ClientError msg => msg
  | ClientResponseError _ => "ClientResponseError"
  | OSError msg => msg
  | RuntimeError msg => msg
  | DuplicateIds => "DuplicateIds"
  | BadIdentifier => "BadIdentifier"
  | CancelledError => EmptyString
  | KeyboardInterrupt => EmptyString
  end.

(** The result of an expression: a value, or a raised exception. *)
Inductive res (A : Type) : Type :=
| Ok (a : A)
| Raise (e : exn).
Arguments Ok {A} a.
Arguments Raise {A} e.

Definition res_bind {A B} (r : res A) (k : A -> res B) : res B :=
  match r with
  | Ok a => k a
  | Raise e => Raise e
  end.

(** Statements that read and write a state of type [S]. *)
Definition M (S A : Type) : Type := S -> res A * S.

Definition ret {S A} (a : A) : M S A := fun s => (Ok a, s).

Definition raise_ {S A} (e : exn) : M S A := fun s => (Raise e, s).

Definition lift {S A} (r : res A) : M S A := fun s => (r, s).

Definition bind {S A B} (m : M S A) (k : A -> M S B) : M S B :=
  fun s =>
    match m s with
    | (Ok a, s') => k a s'
    | (Raise e, s') => (Raise e, s')
    end.

Definition modify {S} (f : S -> S) : M S unit := fun s => (Ok tt, f s).

(** [try: body  except ...: handler].  [handler e] is [None] when no
    except clause matches [e], which then propagates. *)
Definition try_except {S A} (body : M S A)
           (handler : exn -> option (M S A)) : M S A :=
  fun s =>
    match body s with
    | (Ok a, s') => (Ok a, s')
    | (Raise e, s') =>
        match handler e with
        | Some h => h s'
        | None => (Raise e, s')
        end
    end.

(** [try: body  finally: fin]: [fin] runs on every exit of [body]; the
    result of [body], value or exception, is kept unless [fin] raises. *)
Definition try_finally {S A} (body : M S A) (fin : M S unit) : M S A :=
  fun s =>
    match body s with
    | (r, s') =>
        match fin s' with
        | (Ok _, s'') => (r, s'')
        | (Raise e, s'') => (Raise e, s'')
        end
    end.

End Py.

Export Py.

Declare Scope py_scope.
Delimit Scope py_scope with py.
Notation "x <- m ;; k" := (res_bind m (fun x => k))
  (at level 100, m at level 99, k at level 200, right associativity) : py_scope.
Notation "x <~ m ;; k" := (bind m (fun x => k))
  (at level 100, m at level 99, k at level 200, right associativity) : py_scope.
Notation "m ;;; k" := (bind m (fun _ => k))
  (at level 100, k at level 200, right associativity) : py_scope.
Local Open Scope py_scope.

(** ** JSON values, as [json.loads] and [json=] carry them *)

Module Json.

(** A decoded JSON document.  An object is the list of its bindings, a
    key occurring once; numbers are kept as integers (no path below
    computes with a number: it only tests whether it is zero). *)
Inductive json : Type :=
| JNull
| JBool (b : bool)
| JNum (n : Z)
| JStr (s : string)
| JArr (items : list json)
| JObj (fields : list (string * json)).

Fixpoint assoc (k : string) (kv : list (string * json)) : option json :=
  match kv with
  | [] => None
  | (k', v) :: kv' => if String.eqb k k' then Some v else assoc k kv'
  end.

(** [bool(j)] *)
Definition truthy (j : json) : bool :=
  match j with
  | JNull => false
  | JBool b => b
  | JNum n => negb (n =? 0)%Z
  | JStr s => negb (String.eqb s EmptyString)
  | JArr items => match items with [] => false | _ => true end
  | JObj fields => match fields with [] => false | _ => true end
  end.

(** [j[k]] for a string [k] *)
Definition subscript (j : json) (k : string) : res json :=
  match j with
  | JObj fields =>
      match assoc k fields with
      | Some v => Ok v
      | None => Raise KeyError
      end
  | _ => Raise TypeError
  end.

(** [j[0]]: the first item of a list, the first character of a string;
    on a dict the integer 0 is looked up as a key, and the keys of a
    decoded object are strings. *)
Definition subscript0 (j : json) : res json :=
  match j with
  | JArr (x :: _) => Ok x
  | JArr [] => Raise IndexError
  | JStr (String c _) => Ok (JStr (String c EmptyString))
  | JStr EmptyString => Raise IndexError
  | JObj _ => Raise KeyError
  | _ => Raise TypeError
  end.

(** [j.get(k, d)]: only dicts have the method. *)
Definition get (j : json) (k : string) (d : json) : res json :=
  match j with
  | JObj fields => Ok (default d (assoc k fields))
  | _ => Raise AttributeError
  end.

Fixpoint chars (s : string) : list json :=
  match s with
  | EmptyString => []
  | String c s' => JStr (String c EmptyString) :: chars s'
  end.

(** [iter(j)]: a list yields its items, a dict its keys, a string its
    characters; nothing else is iterable. *)
Definition iterate (j : json) : res (list json) :=
  match j with
  | JArr items => Ok items
  | JObj fields => Ok (map (fun kv => JStr (fst kv)) fields)
  | JStr s => Ok (chars s)
  | _ => Raise TypeError
  end.

(** [j == s] for a string literal [s] *)
Definition eq_str (j : json) (s : string) : bool :=
  match j with
  | JStr s' => String.eqb s' s
  | _ => false
  end.

(** One step of a path into a document: a key or an index. *)
Inductive sel : Type :=
| Key (k : string)
| Idx (i : nat).

Fixpoint assoc_set (k : string) (v : json) (kv : list (string * json))
  : list (string * json) :=
  match kv with
  | [] => []
  | (k', v') :: kv' =>
      if String.eqb k k' then (k', v) :: kv'
      else (k', v') :: assoc_set k v kv'
  end.

(** The value at a path, and the document with the value at a path
    replaced (unchanged when the path leads nowhere). *)
Fixpoint at_path (p : list sel) (j : json) : option json :=
  match p with
  | [] => Some j
  | Key k :: p' =>
      match j with
      | JObj fields => assoc k fields ≫= at_path p'
      | _ => None
      end
  | Idx i :: p' =>
      match j with
      | JArr items => items !! i ≫= at_path p'
      | _ => None
      end
  end.

Fixpoint set_path (p : list sel) (v : json) (j : json) : json :=
  match p with
  | [] => v
  | Key k :: p' =>
      match j with
      | JObj fields =>
          match assoc k fields with
          | Some child => JObj (assoc_set k (set_path p' v child) fields)
          | None => j
          end
      | _ => j
      end
  | Idx i :: p' =>
      match j with
      | JArr items =>
          match items !! i with
          | Some child => JArr (<[i := set_path p' v child]> items)
          | None => j
          end
      | _ => j
      end
  end.

End Json.

Export Json.

(** ** [vdl/models/extension.py] *)

Module Models.

(** [class Extension(BaseModel)] *)
Record Extension : Type := {
  publisher : string;
  domain : option string;
  name : string;
  display_name : string;
  last_updated : string;
  description : option string;
  version : option string;
  download_url : option string;
}.

(** The validation pydantic runs when the model is constructed: a field
    annotated [str] takes a string, a field annotated [Optional[str]] a
    string or [None]. *)
Definition validate_str (j : json) : res string :=
  match j with
  | JStr s => Ok s
  | _ => Raise ValidationError
  end.

Definition validate_optional_str (j : json) : res (option string) :=
  match j with
  | JStr s => Ok (Some s)
  | JNull => Ok None
  | _ => Raise ValidationError
  end.

(** [Extension(publisher=..., domain=..., ...)] *)
Definition Extension_init
           (publisher_ domain_ name_ display_name_ last_updated_
                       description_ version_ download_url_ : json)
  : res Extension :=
  p <- validate_str publisher_ ;;
  d <- validate_optional_str domain_ ;;
  n <- validate_str name_ ;;
  dn <- validate_str display_name_ ;;
  lu <- validate_str last_updated_ ;;
  de <- validate_optional_str description_ ;;
  v <- validate_optional_str version_ ;;
  u <- validate_optional_str download_url_ ;;
  Ok {| publisher := p; domain := d; name := n; display_name := dn;
        last_updated := lu; description := de; version := v;
        download_url := u |}.

End Models.

Export Models.

(** ** [vdl/downloader/vsix_api_handler.py] *)

Module VsixApiHandler.

Definition API_URL : string :=
  "https://marketplace.visualstudio.com/_apis/public/gallery/extensionquery".

Definition HEADERS : list (string * string) :=
  [("Content-Type", "application/json");
   ("Accept", "application/json;api-version=3.0-preview.1")].

Definition VSIX_PACKAGE : string :=
  "Microsoft.VisualStudio.Services.VSIXPackage".

Definition PARSE_FAILURE : string :=
  "Failed to extract extension information from the API response.".

(** What a search does that its surroundings can see. *)
Inductive api_event : Type :=
| Clear
| Post (url : string) (payload : json) (headers : list (string * string))
       (timeout : Z)
| Output (msg : string).

(** The handler object: its [_stop_event], and the events so far. *)
Record client : Type := {
  _stop_event : bool;
  trace : list api_event;
}.

Definition record (ev : api_event) : M client unit :=
  modify (fun c => {| _stop_event := _stop_event c;
                      trace := trace c ++ [ev] |}).

(** [__init__]: a fresh [Event] is not set. *)
Definition init : client := {| _stop_event := false; trace := [] |}.

(** [stop] *)
Definition stop (c : client) : client :=
  {| _stop_event := true; trace := trace c |}.

(** [self._stop_event.clear()] *)
Definition clear : M client unit :=
  modify (fun c => {| _stop_event := false; trace := trace c ++ [Clear] |}).

Definition is_set : M client bool := fun c => (Ok (_stop_event c), c).

(** The answer of the marketplace: a status line and a body, [None]
    when the body is not JSON. *)
Record api_response : Type := {
  status_code : Z;
  body : option json;
}.

(** The surroundings of one request: whether another task calls [stop]
    while this one is suspended in [await client.post(...)], and what
    the await then delivers. *)
Record net : Type := {
  stop_during_post : bool;
  post_result : res api_response;
}.

(** [await client.post(self.API_URL, json=payload, headers=self.HEADERS)] *)
Definition post (w : net) (payload : json) (timeout : Z)
  : M client api_response :=
  record (Post API_URL payload HEADERS timeout) ;;;
  modify (fun c => if stop_during_post w then stop c else c) ;;;
  lift (post_result w).

(** httpx: [raise_for_status] raises unless the status is 2xx. *)
Definition httpx_raise_for_status (r : api_response) : res unit :=
  if ((200 <=? status_code r) && (status_code r <=? 299))%Z then Ok tt
  else Raise (HTTPStatusError (status_code r)).

(** [response.json()] *)
Definition response_json (r : api_response) : res json :=
  match body r with
  | Some j => Ok j
  | None => Raise JSONDecodeError
  end.

(** [_call_api]; the result [None] is Python's [None]. *)
Definition _call_api (w : net) (payload : json) (timeout : Z)
  : M client (option json) :=
  clear ;;;
  try_except
    (response <~ post w payload timeout ;;
     stopped <~ is_set ;;
     (if stopped : bool then raise_ CancelledError else ret tt) ;;;
     lift (httpx_raise_for_status response) ;;;
     j <~ lift (response_json response) ;;
     ret (Some j))
    (fun exc =>
       if is_RequestError exc then
         Some (raise_ (Exception_
                         ("An HTTP request error occurred: " +:+ exn_str exc)))
       else if is_TimeoutException exc then
         Some (raise_ (Exception_ "The request timed out."))
       else if is_CancelledError exc then
         Some (record (Output "Request was canceled.") ;;; ret None)
       else None).

(** [_build_query] *)
Definition _build_query (filter_type : Z) (value : string)
           (page_number page_size : Z) : json :=
  JObj [
    ("filters", JArr [
       JObj [
         ("criteria", JArr [
            JObj [("filterType", JNum filter_type); ("value", JStr value)]
          ]);
         ("pageNumber", JNum page_number);
         ("pageSize", JNum page_size);
         ("sortBy", JNum 0);
         ("sortOrder", JNum 0)
       ]
     ]);
    ("assetTypes", JArr []);
    ("flags", JNum 514)
  ].

(** [next((file["source"] for file in ... if file["assetType"] == ...), None)]:
    the generator is pulled until its first item; files after the first
    match are not looked at. *)
Fixpoint first_source (files : list json) : res json :=
  match files with
  | [] => Ok JNull
  | file :: files' =>
      asset_type <- subscript file "assetType" ;;
      if eq_str asset_type VSIX_PACKAGE then subscript file "source"
      else first_source files'
  end.

(** The body of the [for ext in results] loop, up to the record that is
    appended. *)
Definition parse_extension (ext : json) : res Extension :=
  publisher_ <- subscript ext "publisher" ;;
  publisher_name <- subscript publisher_ "publisherName" ;;
  publisher_ <- subscript ext "publisher" ;;
  domain_ <- get publisher_ "domain" (JStr "marketplace.visualstudio.com") ;;
  last_updated_ <- get ext "lastUpdated" (JStr "Unknown") ;;
  extension_name <- subscript ext "extensionName" ;;
  display_name_ <- get ext "displayName" (JStr "N/A") ;;
  description_ <- get ext "shortDescription" (JStr "No description available.") ;;
  versions <- subscript ext "versions" ;;
  version_data <- subscript0 versions ;;
  version_ <- subscript version_data "version" ;;
  files <- subscript version_data "files" ;;
  files <- iterate files ;;
  download_url_ <- first_source files ;;
  Extension_init publisher_name domain_ extension_name display_name_
                 last_updated_ description_ version_ download_url_.

(** The loop: [extensions] is the list built so far. *)
Fixpoint parse_loop (extensions : list Extension) (results : list json)
  : res (list Extension) :=
  match results with
  | [] => Ok extensions
  | ext :: results' =>
      e <- parse_extension ext ;;
      parse_loop (extensions ++ [e]) results'
  end.

(** [_parse_results] *)
Definition _parse_results (data : json) : res (list Extension) :=
  match (results <- subscript data "results" ;;
         results <- subscript0 results ;;
         results <- subscript results "extensions" ;;
         results <- iterate results ;;
         parse_loop [] results)
  with
  | Raise KeyError | Raise IndexError => Raise (ValueError PARSE_FAILURE)
  | r => r
  end.

(** [search_extensions] *)
Definition search_extensions (w : net) (query : string)
           (by_publisher : bool) (page_size page_number : Z)
  : M client (list Extension) :=
  let filter_type := (if by_publisher then 4 else 10)%Z in
  let payload := _build_query filter_type query page_number page_size in
  data <~ _call_api w payload 10 ;;
  match data with
  | Some j => if truthy j then lift (_parse_results j) else ret []
  | None => ret []
  end.

End VsixApiHandler.

(** ** [vdl/downloader/download_manager.py] *)

Module DownloadManager.

(** *** [int(...)] on a header value

    CPython's [int] on a string of ASCII characters: white space (the
    six characters of [Py_ISSPACE]) on both sides, an optional sign, and
    decimal digits, single underscores allowed between two of them.
    More than 4300 digits are refused. *)

Definition is_space (c : ascii) : bool :=
  let n := nat_of_ascii c in
  ((9 <=? n) && (n <=? 13) || (n =? 32))%nat.

Definition digit_of (c : ascii) : option Z :=
  let n := nat_of_ascii c in
  if ((48 <=? n) && (n <=? 57))%nat then Some (Z.of_nat (n - 48)) else None.

Fixpoint strip_left (cs : list ascii) : list ascii :=
  match cs with
  | c :: cs' => if is_space c then strip_left cs' else cs
  | [] => []
  end.

(** The digits and underscores at the head of [cs]: their value, the
    number of digits, and what follows them; [pending] says that the
    last character read was an underscore.  Two underscores in a row and
    an underscore at the end are refused. *)
Fixpoint literal (acc : Z) (count : nat) (pending : bool) (cs : list ascii)
  : option (Z * nat * list ascii) :=
  match cs with
  | [] => if pending then None else Some (acc, count, [])
  | c :: cs' =>
      match digit_of c with
      | Some d => literal (10 * acc + d)%Z (S count) false cs'
      | None =>
          if Ascii.eqb c "_" then
            if pending then None else literal acc count true cs'
          else if pending then None else Some (acc, count, cs)
      end
  end.

Definition hex_digit (n : nat) : ascii :=
  ascii_of_nat (if (n <? 10)%nat then 48 + n else 87 + n).

(** [repr(s)] for a string of ASCII characters *)
Definition repr_char (quote : ascii) (c : ascii) : string :=
  let n := nat_of_ascii c in
  if Ascii.eqb c quote then String "\" (String c EmptyString)
  else if Ascii.eqb c "\" then "\\"
  else if (n =? 9)%nat then "\t"
  else if (n =? 10)%nat then "\n"
  else if (n =? 13)%nat then "\r"
  else if ((n <? 32) || (n =? 127))%nat then
    String "\" (String "x" (String (hex_digit (n / 16))
                                   (String (hex_digit (n mod 16)) EmptyString)))
  else String c EmptyString.

Definition has_char (c : ascii) (s : string) : bool :=
  existsb (Ascii.eqb c) (list_ascii_of_string s).

Definition double_quote : ascii := ascii_of_nat 34.

Definition repr (s : string) : string :=
  let quote : ascii :=
    if has_char "'" s && negb (has_char double_quote s) then double_quote
    else "'"%char in
  String quote
         (String.concat EmptyString
                        (repr_char quote <$> list_ascii_of_string s)
          +:+ String quote EmptyString).

Definition MAX_STR_DIGITS : nat := 4300.

Definition invalid_literal (s : string) : exn :=
  ValueError ("invalid literal for int() with base 10: "
              +:+ substring 0 200 (repr s)).

Definition too_many_digits (count : nat) : exn :=
  ValueError ("Exceeds the limit (4300 digits) for integer string conversion: value has "
              +:+ NilZero.string_of_uint (Nat.to_uint count)
              +:+ " digits; use sys.set_int_max_str_digits() to increase the limit").

(** [int(s)] *)
Definition int_of_str (s : string) : res Z :=
  let cs := strip_left (list_ascii_of_string s) in
  let (sign, cs) :=
    match cs with
    | c :: cs' =>
        if Ascii.eqb c "-" then ((-1)%Z, cs')
        else if Ascii.eqb c "+" then (1%Z, cs')
        else (1%Z, cs)
    | [] => (1%Z, cs)
    end in
  match cs with
  | c :: _ =>
      if Ascii.eqb c "_" then Raise (invalid_literal s)
      else
        match literal 0 0 false cs with
        | None => Raise (invalid_literal s)
        | Some (n, count, rest) =>
            if (MAX_STR_DIGITS <? count)%nat then Raise (too_many_digits count)
            else if (count =? 0)%nat then Raise (invalid_literal s)
            else match strip_left rest with
                 | [] => Ok (sign * n)%Z
                 | _ :: _ => Raise (invalid_literal s)
                 end
        end
  | [] => Raise (invalid_literal s)
  end.

(** *** The response and its surroundings *)

Definition lower (c : ascii) : ascii :=
  let n := nat_of_ascii c in
  if ((65 <=? n) && (n <=? 90))%nat then ascii_of_nat (n + 32) else c.

Fixpoint lower_str (s : string) : string :=
  match s with
  | EmptyString => EmptyString
  | String c s' => String (lower c) (lower_str s')
  end.

(** [headers.get(key)]: aiohttp compares header names without case and
    answers with the first value of the name. *)
Fixpoint headers_get (key : string) (headers : list (string * string))
  : option string :=
  match headers with
  | [] => None
  | (k, v) :: headers' =>
      if String.eqb (lower_str k) (lower_str key) then Some v
      else headers_get key headers'
  end.

(** What one [read(1024)] on the body answers: bytes (none at the end of
    the body), or an exception. *)
Inductive read : Type :=
| Data (chunk : list Byte.byte)
| Fault (e : exn).

Record response : Type := {
  status : Z;
  headers : list (string * string);
  content : list read;
}.

(** The surroundings of one run of [download_file]: what arrives for the
    GET (the answer of the server, or the exception of the transport),
    and the exceptions, if any, of [os.makedirs], of [open], of the
    [k]-th [file.write], of closing the file, of releasing the response
    and of closing the session. *)
Record world : Type := {
  arrives : res response;
  makedirs_fault : option exn;
  open_fault : option exn;
  write_fault : nat -> option exn;
  close_fault : option exn;
  release_fault : option exn;
  session_close_fault : option exn;
}.

(** The value of a Content-Length header that aiohttp's parser takes:
    decimal digits, at least one, for a number below 2^64. *)
Fixpoint decimal (acc : Z) (cs : list ascii) : option Z :=
  match cs with
  | [] => Some acc
  | c :: cs' =>
      match digit_of c with
      | Some d => decimal (10 * acc + d)%Z cs'
      | None => None
      end
  end.

Definition acceptable (v : string) : bool :=
  match list_ascii_of_string v with
  | [] => false
  | cs => match decimal 0 cs with
          | Some n => (n <? 2 ^ 64)%Z
          | None => false
          end
  end.

(** [await session.get(url)]: the answer that arrives is delivered as a
    response, unless its Content-Length is one that the parser does not
    take; the GET then raises a [ClientResponseError] with status 400. *)
Definition get_result (w : world) : res response :=
  match arrives w with
  | Ok r =>
      match headers_get "Content-Length" (headers r) with
      | Some v => if acceptable v then Ok r else Raise (ClientResponseError 400)
      | None => Ok r
      end
  | Raise e => Raise e
  end.

(** A callback argument: [None], or a callable; called with two
    integers it returns ([None]) or raises ([Some e]). *)
Definition callback : Type := option (Z -> Z -> option exn).

(** The arguments of one download, with its surroundings. *)
Record job : Type := {
  url : string;
  output_path : string;
  progress_callback : callback;
  completion_callback : callback;
  env : world;
}.

(** What a download does that its surroundings can see. *)
Inductive event : Type :=
| Progress (downloaded total_size : Z)
| Complete (downloaded total_size : Z)
| Print (msg : string).

(** Where a task of [download_file] is: made by [create_task] and not
    yet run; suspended in the GET, before the response is there; in the
    [async for], before the next item of the body is there, with the
    values of its variables; or in the exit of one of the two
    [async with] blocks, releasing the response or closing the session,
    with the outcome of the block that is left. *)
Inductive stage : Type :=
| Created
| Connecting
| Reading (total_size : Z) (items : list read) (k : nat) (downloaded : Z)
| Releasing (pending : res unit)
| Closing (pending : res unit).

(** A task of the event loop: the arguments of its call of
    [download_file], and where it is. *)
Record coroutine : Type := {
  args : job;
  suspended : stage;
}.

(** The process: the class attribute [_instance] with the
    [_download_tasks] of the instance, the files with the bytes written
    to them, the events so far, and the tasks of the event loop that
    were created and have not finished ([next_task] names the next
    one). *)
Record proc : Type := {
  _instance : option (gset nat);
  files : gmap string (list Byte.byte);
  out : list event;
  next_task : nat;
  tasks : gmap nat coroutine;
}.

Definition set_instance (f : option (gset nat) -> option (gset nat))
           (p : proc) : proc :=
  {| _instance := f (_instance p); files := files p; out := out p;
     next_task := next_task p; tasks := tasks p |}.

Definition set_files (f : gmap string (list Byte.byte)
                          -> gmap string (list Byte.byte))
           (p : proc) : proc :=
  {| _instance := _instance p; files := f (files p); out := out p;
     next_task := next_task p; tasks := tasks p |}.

Definition emit (ev : event) : M proc unit :=
  modify (fun p =>
            {| _instance := _instance p; files := files p;
               out := out p ++ [ev];
               next_task := next_task p; tasks := tasks p |}).

(** The process at its start: no instance, no task, nothing printed. *)
Definition start (disk : gmap string (list Byte.byte)) : proc :=
  {| _instance := None; files := disk; out := []; next_task := 0;
     tasks := ∅ |}.

(** [DownloadManager()]: [__new__] makes the instance on the first call
    only, and [__init__] gives it an empty set on the first call only. *)
Definition new (p : proc) : proc :=
  match _instance p with
  | Some _ => p
  | None => set_instance (fun _ => Some ∅) p
  end.

Definition _download_tasks (p : proc) : gset nat :=
  default ∅ (_instance p).

(** [active_downloads] *)
Definition active_downloads (p : proc) : nat :=
  size (_download_tasks p).

(** *** [download_file] *)

Definition fault (f : option exn) : M proc unit :=
  match f with
  | None => ret tt
  | Some e => raise_ e
  end.

(** The exit of a [with] or [async with] block: it runs however the
    block ends, and an exception of its own takes the place of the
    outcome of the block. *)
Definition leave {A} (exit_fault : option exn) (outcome : res A) : res A :=
  match exit_fault with
  | Some e => Raise e
  | None => outcome
  end.

Definition leaving {A} (exit_fault : option exn) (block : M proc A)
  : M proc A :=
  fun p =>
    match block p with
    | (outcome, p') => (leave exit_fault outcome, p')
    end.

(** aiohttp: [raise_for_status] raises when the status is 400 or more. *)
Definition raise_for_status (r : response) : res unit :=
  if (400 <=? status r)%Z then Raise (ClientResponseError (status r))
  else Ok tt.

(** [int(response.headers.get("Content-Length", 0))] *)
Definition content_length (r : response) : res Z :=
  match headers_get "Content-Length" (headers r) with
  | Some v => int_of_str v
  | None => Ok 0%Z
  end.

(** [open(output_path, "wb")] creates the file, or empties it. *)
Definition open_wb (w : world) (path : string) : M proc unit :=
  fault (open_fault w) ;;;
  modify (set_files (fun fs => <[path := []]> fs)).

(** The [k]-th [file.write(chunk)]: the file object takes the bytes, or
    raises when it cannot empty its buffer. *)
Definition file_write (w : world) (path : string) (k : nat)
           (chunk : list Byte.byte) : M proc unit :=
  fault (write_fault w k) ;;;
  modify (set_files (fun fs => <[path := (default [] (fs !! path) ++ chunk)%list]> fs)).

(** [if callback: callback(downloaded, total_size)] *)
Definition call (cb : callback) (ev : Z -> Z -> event)
           (downloaded total_size : Z) : M proc unit :=
  match cb with
  | None => ret tt
  | Some f =>
      emit (ev downloaded total_size) ;;;
      fault (f downloaded total_size)
  end.

(** What [response.content.iter_chunked(1024)] yields: aiohttp's
    iterator ends at the first read that answers no bytes, and a [read]
    that raises ends it with that exception. *)
Fixpoint iter_chunked (reads : list read) : list read :=
  match reads with
  | [] => []
  | Data [] :: _ => []
  | Data chunk :: reads' => Data chunk :: iter_chunked reads'
  | Fault e :: _ => [Fault e]
  end.

(** The [async for] loop over the items still to come; [k] counts the
    writes so far. *)
Fixpoint stream (j : job) (total_size : Z) (items : list read) (k : nat)
         (downloaded : Z) : M proc Z :=
  match items with
  | [] => ret downloaded
  | Fault e :: _ => raise_ e
  | Data chunk :: items' =>
      file_write (env j) (output_path j) k chunk ;;;
      let downloaded := (downloaded + Z.of_nat (length chunk))%Z in
      call (progress_callback j) Progress downloaded total_size ;;;
      stream j total_size items' (S k) downloaded
  end.

(** The statements between [async with session.get(url) as response:]
    and [with open(...)], and [open] itself. *)
Definition prepare (j : job) (response : response) : M proc Z :=
  lift (raise_for_status response) ;;;
  total_size <~ lift (content_length response) ;;
  fault (makedirs_fault (env j)) ;;;
  open_wb (env j) (output_path j) ;;;
  ret total_size.

(** The statements under [try:] *)
Definition download_body (j : job) : M proc unit :=
  leaving (session_close_fault (env j))
    (response <~ lift (get_result (env j)) ;;
     leaving (release_fault (env j))
       (total_size <~ prepare j response ;;
        let downloaded := 0%Z in
        downloaded <~ leaving (close_fault (env j))
                        (stream j total_size (iter_chunked (content response))
                                0 downloaded) ;;
        call (completion_callback j) Complete downloaded total_size)).

Definition error_message (j : job) (e : exn) : string :=
  "Error downloading " +:+ url j +:+ ": " +:+ exn_str e.

(** [self._download_tasks.discard(asyncio.current_task())] *)
Definition discard (task : nat) : M proc unit :=
  modify (set_instance (fmap (fun s => s ∖ {[task]}))).

(** [download_file], run as task [task] *)
Definition download_file (task : nat) (j : job) : M proc unit :=
  try_finally
    (try_except
       (download_body j)
       (fun e => if is_Exception e
                 then Some (emit (Print (error_message j e)))
                 else None))
    (discard task).

(** [start_download]: [asyncio.create_task] makes the task, which runs
    only after the caller gives up control, and the set takes it. *)
Definition start_download (j : job) (p : proc) : proc :=
  let task := next_task p in
  {| _instance := (fun s => s ∪ {[task]}) <$> _instance p;
     files := files p; out := out p;
     next_task := S task;
     tasks := <[task := {| args := j; suspended := Created |}]> (tasks p) |}.

(** *** The event loop

    The loop runs one task at a time, from where the task is suspended
    to its next await, or to its end.  [download_file] awaits the
    response of the GET, each item of the body in the [async for], and
    the exits of the two [async with] blocks; writing the file, closing
    it and calling the callbacks do not suspend it.  What the task
    awaits arrives, or an exception is thrown in at the await: the
    [CancelledError] of [task.cancel()]. *)

(** What an await gives: the exception thrown in, or what arrives. *)
Definition awaited {A} (thrown : option exn) (arrives : res A) : res A :=
  match thrown with
  | Some e => Raise e
  | None => arrives
  end.

(** From the GET to the first await of the [async for]. *)
Definition connect (thrown : option exn) (j : job) : M proc stage :=
  fun p =>
    match awaited thrown (get_result (env j)) with
    | Raise e => (Ok (Closing (Raise e)), p)
    | Ok response =>
        match prepare j response p with
        | (Ok total_size, p') =>
            (Ok (Reading total_size (iter_chunked (content response)) 0 0%Z),
             p')
        | (Raise e, p') => (Ok (Releasing (Raise e)), p')
        end
    end.

(** From an await of the [async for] to the next one or, when the loop
    is left, to the exit of the block of the response. *)
Definition turn (thrown : option exn) (j : job) (total_size : Z)
           (items : list read) (k : nat) (downloaded : Z) : M proc stage :=
  fun p =>
    match awaited thrown
                  (match items with
                   | [] => Ok None
                   | Fault e :: _ => Raise e
                   | Data chunk :: items' => Ok (Some (chunk, items'))
                   end)
    with
    | Raise e => (Ok (Releasing (leave (close_fault (env j)) (Raise e))), p)
    | Ok None =>
        match leave (close_fault (env j)) (Ok downloaded) with
        | Raise e => (Ok (Releasing (Raise e)), p)
        | Ok downloaded =>
            match call (completion_callback j) Complete downloaded total_size p
            with
            | (outcome, p') => (Ok (Releasing outcome), p')
            end
        end
    | Ok (Some (chunk, items')) =>
        let downloaded' := (downloaded + Z.of_nat (length chunk))%Z in
        match (file_write (env j) (output_path j) k chunk ;;;
               call (progress_callback j) Progress downloaded' total_size) p
        with
        | (Ok _, p') => (Ok (Reading total_size items' (S k) downloaded'), p')
        | (Raise e, p') =>
            (Ok (Releasing (leave (close_fault (env j)) (Raise e))), p')
        end
    end.

Definition first_of (thrown fault_ : option exn) : option exn :=
  match thrown with
  | Some e => Some e
  | None => fault_
  end.

(** One segment of the statements under [try:]; [None] says that they
    have come to their end. *)
Definition segment (thrown : option exn) (j : job) (st : stage)
  : M proc (option stage) :=
  match st with
  | Created => ret (Some Connecting)
  | Connecting => st' <~ connect thrown j ;; ret (Some st')
  | Reading total_size items k downloaded =>
      st' <~ turn thrown j total_size items k downloaded ;; ret (Some st')
  | Releasing pending =>
      ret (Some (Closing (leave (first_of thrown (release_fault (env j)))
                                pending)))
  | Closing pending =>
      lift (leave (first_of thrown (session_close_fault (env j))) pending) ;;;
      ret None
  end.

(** The task [task] is run from where it is.  An exception thrown into
    a task that has not yet run ends it there: no statement of
    [download_file] is executed, the [finally] clause no more than the
    others.  Otherwise the task runs its segment; when the statements
    under [try:] have come to their end, what is left of [download_file]
    follows, the except clause after an exception and the [finally]
    clause in any case. *)
Definition wake (thrown : option exn) (task : nat) (j : job) (st : stage)
  : M proc (option stage) :=
  match st, thrown with
  | Created, Some e => raise_ e
  | _, _ =>
      fun p =>
        match segment thrown j st p with
        | (Ok (Some st'), p') => (Ok (Some st'), p')
        | (r, p') =>
            try_finally
              (try_except
                 (lift r)
                 (fun e => if is_Exception e
                           then Some (emit (Print (error_message j e)) ;;; ret None)
                           else None))
              (discard task) p'
        end
  end.

(** The task is resumed with what it awaits. *)
Definition resume (task : nat) (j : job) (st : stage)
  : M proc (option stage) :=
  wake None task j st.

(** What happens in the loop: a download is started, a task is resumed,
    or a task is cancelled and then run with the [CancelledError]. *)
Inductive action : Type :=
| StartDownload (j : job)
| Resume (task : nat)
| Cancel (task : nat).

Definition set_tasks (f : gmap nat coroutine -> gmap nat coroutine)
           (p : proc) : proc :=
  {| _instance := _instance p; files := files p; out := out p;
     next_task := next_task p; tasks := f (tasks p) |}.

(** The task after its run: suspended again, or gone from the loop. *)
Definition settle (task : nat) (c : coroutine)
           (r : res (option stage) * proc) : proc :=
  match r with
  | (Ok (Some st), p') =>
      set_tasks (insert task {| args := args c; suspended := st |}) p'
  | (_, p') => set_tasks (delete task) p'
  end.

Definition step (a : action) (p : proc) : option proc :=
  match a with
  | StartDownload j => Some (start_download j (new p))
  | Resume task =>
      c ← tasks p !! task;
      Some (settle task c (resume task (args c) (suspended c) p))
  | Cancel task =>
      c ← tasks p !! task;
      Some (settle task c
                   (wake (Some CancelledError) task (args c) (suspended c) p))
  end.

Fixpoint run (acts : list action) (p : proc) : option proc :=
  match acts with
  | [] => Some p
  | a :: acts' => step a p ≫= run acts'
  end.

End DownloadManager.

(** ** [vdl/tui/screens/search_screen.py] *)

Module SearchScreen.

Definition DOWNLOAD_BUTTON : string := "_download_button".

(** [sub in s] *)
Fixpoint contains (sub s : string) : bool :=
  if String.prefix sub s then true
  else match s with
       | EmptyString => false
       | String _ s' => contains sub s'
       end.

(** [s.replace(old, '')] for a non-empty [old]: every occurrence met
    from the left is left out; [skip] counts the characters of the
    current occurrence still to leave out. *)
Fixpoint remove (old : string) (skip : nat) (s : string) : string :=
  match s with
  | EmptyString => EmptyString
  | String c s' =>
      match skip with
      | S n => remove old n s'
      | O =>
          if String.prefix old s then remove old (String.length old - 1) s'
          else String c (remove old 0 s')
      end
  end.

(** Textual accepts as a widget id a letter, an underscore or a hyphen
    followed by letters, digits, underscores and hyphens. *)
Definition id_start (c : ascii) : bool :=
  let n := nat_of_ascii c in
  ((65 <=? n) && (n <=? 90) || (97 <=? n) && (n <=? 122)
   || (n =? 95) || (n =? 45))%nat.

Definition id_char (c : ascii) : bool :=
  let n := nat_of_ascii c in
  (id_start c || (48 <=? n) && (n <=? 57))%nat.

Definition identifier (s : string) : bool :=
  match s with
  | EmptyString => false
  | String c s' => id_start c && forallb id_char (list_ascii_of_string s')
  end.

(** The screen: the dict [extensions] (an attribute of the class, so one
    dict for all screens) and the children of the container
    [#extension_container], each an [ExtensionWidget] with its id and
    the extension it shows.  [container] holds the children that are
    mounted; [refused] holds those that the container has taken among
    its children and then refused for their id: they are not composed,
    so they show nothing and have no button. *)
Record screen : Type := {
  extensions : gmap string Extension;
  container : list (string * Extension);
  refused : list (string * Extension);
}.

(** A screen that was just pushed: the dict is what the screens before
    it left, the container is empty. *)
Definition pushed (dict : gmap string Extension) : screen :=
  {| extensions := dict; container := []; refused := [] |}.

(** [self.extensions[extension.name] = extension] *)
Definition remember (e : Extension) : M screen unit :=
  modify (fun s => {| extensions := <[name e := e]> (extensions s);
                      container := container s;
                      refused := refused s |}).

(** [vertical.mount(ExtensionWidget(extension, id=extension.name))]:
    Textual puts the widget among the children before it looks for its
    id among theirs. *)
Definition mount (e : Extension) : M screen unit :=
  fun s =>
    if negb (identifier (name e)) then (Raise BadIdentifier, s)
    else if existsb (fun w => String.eqb (fst w) (name e)) (container s)
         then (Raise DuplicateIds,
               {| extensions := extensions s;
                  container := container s;
                  refused := (refused s ++ [(name e, e)])%list |})
         else (Ok tt, {| extensions := extensions s;
                         container := (container s ++ [(name e, e)])%list;
                         refused := refused s |}).

(** [populate_extensions], from its loop [for extension in
    search_results] on *)
Fixpoint populate_extensions (search_results : list Extension) : M screen unit :=
  match search_results with
  | [] => ret tt
  | extension :: rest =>
      remember extension ;;;
      try_except (mount extension)
                 (fun e => match e with
                           | DuplicateIds => Some (ret tt)
                           | _ => None
                           end) ;;;
      populate_extensions rest
  end.

(** The id of the button that the widget of [e] composes. *)
Definition button_id (e : Extension) : string :=
  name e +:+ DOWNLOAD_BUTTON.

(** [on_button_pressed]: the value handed to [dismiss], [None] when the
    button is not a download button. *)
Definition on_button_pressed (id : string) (s : screen)
  : res (option Extension) :=
  if contains DOWNLOAD_BUTTON id then
    let extension_name := remove DOWNLOAD_BUTTON 0 id in
    match extensions s !! extension_name with
    | Some e => Ok (Some e)
    | None => Raise KeyError
    end
  else Ok None.

End SearchScreen.

(** ** The shape of a marketplace response, in the words of the specification *)

Module Shape.
Import VsixApiHandler.

Definition is_str (j : json) : bool :=
  match j with
  | JStr _ => true
  | _ => false
  end.

Definition is_optional_str (j : json) : bool :=
  match j with
  | JStr _ | JNull => true
  | _ => false
  end.

Definition is_list_of (P : json -> bool) (j : json) : bool :=
  match j with
  | JArr items => forallb P items
  | _ => false
  end.

(** The key [k] is bound. *)
Definition has (k : string) (fields : list (string * json)) : bool :=
  match assoc k fields with
  | Some _ => true
  | None => false
  end.

(** The key [k], where it is bound, is bound to a value that [P] accepts. *)
Definition typed_field (P : json -> bool) (k : string)
           (fields : list (string * json)) : bool :=
  match assoc k fields with
  | Some v => P v
  | None => true
  end.

(** *** Typed: what is there has the JSON type that is expected of it, so
    that a defect can only be a key that is missing or an array that is
    empty. *)

Definition typed_file (file : json) : bool :=
  match file with
  | JObj fields => typed_field is_optional_str "source" fields
  | _ => false
  end.

Definition typed_version (v : json) : bool :=
  match v with
  | JObj fields =>
      typed_field is_optional_str "version" fields
      && typed_field (is_list_of typed_file) "files" fields
  | _ => false
  end.

Definition typed_versions (vs : json) : bool :=
  match vs with
  | JArr [] => true
  | JArr (v :: _) => typed_version v
  | _ => false
  end.

Definition typed_publisher (p : json) : bool :=
  match p with
  | JObj fields =>
      typed_field is_str "publisherName" fields
      && typed_field is_optional_str "domain" fields
  | _ => false
  end.

Definition typed_extension (ext : json) : bool :=
  match ext with
  | JObj fields =>
      typed_field typed_publisher "publisher" fields
      && typed_field is_str "lastUpdated" fields
      && typed_field is_str "extensionName" fields
      && typed_field is_str "displayName" fields
      && typed_field is_optional_str "shortDescription" fields
      && typed_field typed_versions "versions" fields
  | _ => false
  end.

Definition typed_results (rs : json) : bool :=
  match rs with
  | JArr [] => true
  | JArr (JObj fields :: _) =>
      typed_field (is_list_of typed_extension) "extensions" fields
  | _ => false
  end.

Definition typed_response (data : json) : bool :=
  match data with
  | JObj fields => typed_field typed_results "results" fields
  | _ => false
  end.

(** *** Complete: no key of the expected structure is missing and no
    indexed array is empty.  Of the files of a version the structure
    reaches as far as the first package file. *)

Fixpoint complete_files (files : list json) : bool :=
  match files with
  | [] => true
  | JObj fields :: files' =>
      match assoc "assetType" fields with
      | Some asset_type =>
          if eq_str asset_type VSIX_PACKAGE then has "source" fields
          else complete_files files'
      | None => false
      end
  | _ :: _ => false
  end.

Definition complete_version (v : json) : bool :=
  match v with
  | JObj fields =>
      has "version" fields
      && match assoc "files" fields with
         | Some (JArr files) => complete_files files
         | _ => false
         end
  | _ => false
  end.

Definition complete_extension (ext : json) : bool :=
  match ext with
  | JObj fields =>
      match assoc "publisher" fields with
      | Some (JObj p) => has "publisherName" p
      | _ => false
      end
      && has "extensionName" fields
      && match assoc "versions" fields with
         | Some (JArr (v :: _)) => complete_version v
         | _ => false
         end
  | _ => false
  end.

(** [results[0].extensions] *)
Definition entries (data : json) : option (list json) :=
  match data with
  | JObj fields =>
      match assoc "results" fields with
      | Some (JArr (JObj r :: _)) =>
          match assoc "extensions" r with
          | Some (JArr exts) => Some exts
          | _ => None
          end
      | _ => None
      end
  | _ => None
  end.

Definition complete_response (data : json) : bool :=
  match entries data with
  | Some exts => forallb complete_extension exts
  | None => false
  end.

(** *** What the specification reads off an entry *)

Definition str_field (k : string) (j : json) : option string :=
  match j with
  | JObj fields =>
      match assoc k fields with
      | Some (JStr s) => Some s
      | _ => None
      end
  | _ => None
  end.

(** The first element of the entry's [versions]. *)
Definition first_version (ext : json) : option json :=
  match ext with
  | JObj fields =>
      match assoc "versions" fields with
      | Some (JArr (v :: _)) => Some v
      | _ => None
      end
  | _ => None
  end.

(** Among the files of a version, the [source] of the first one whose
    [assetType] is the package tag. *)
Definition package_source (v : json) : option string :=
  match v with
  | JObj fields =>
      match assoc "files" fields with
      | Some (JArr files) =>
          find (fun file =>
                  bool_decide (str_field "assetType" file = Some VSIX_PACKAGE))
               files
          ≫= str_field "source"
      | _ => None
      end
  | _ => None
  end.

(** The payloads of the requests in a trace. *)
Definition posted (tr : list api_event) : list json :=
  omap (fun ev => match ev with
                  | Post _ payload _ _ => Some payload
                  | _ => None
                  end) tr.

(** The path of [criteria[0].filterType] in a payload. *)
Definition FILTER_TYPE : list sel :=
  [Key "filters"; Idx 0; Key "criteria"; Idx 0; Key "filterType"].

(** The marketplace answers the request with a 2xx status and the body
    [data], and nobody calls [stop] in the meantime. *)
Definition answers (w : net) (data : json) : Prop :=
  stop_during_post w = false
  /\ exists r, post_result w = Ok r
               /\ httpx_raise_for_status r = Ok tt
               /\ body r = Some data.

(** The request fails in the network: the transport raises, or the status
    is not 2xx. *)
Definition network_failure (w : net) : Prop :=
  (exists e, post_result w = Raise e /\ is_RequestError e = true)
  \/ (stop_during_post w = false
      /\ exists r, post_result w = Ok r /\ httpx_raise_for_status r <> Ok tt).

(** What the specification says of the record made from an entry. *)
Definition extracted (ext : json) (e : Extension) : Prop :=
  exists v0, first_version ext = Some v0
             /\ version e = str_field "version" v0
             /\ download_url e = package_source v0.

Definition key_or_index {A} (r : res A) : Prop :=
  r = Raise KeyError \/ r = Raise IndexError.

End Shape.

(** ** What is observed of a download, in the words of the specification *)

Module Observed.
Import DownloadManager.

(** The [downloaded] arguments of the progress callback, in order. *)
Definition progress_values (evs : list event) : list Z :=
  omap (fun ev => match ev with
                  | Progress downloaded _ => Some downloaded
                  | _ => None
                  end) evs.

(** The arguments of the completion callback, one pair for each call. *)
Definition completions (evs : list event) : list (Z * Z) :=
  omap (fun ev => match ev with
                  | Complete downloaded total_size => Some (downloaded, total_size)
                  | _ => None
                  end) evs.

(** The [total_size] arguments of both callbacks. *)
Definition totals (evs : list event) : list Z :=
  omap (fun ev => match ev with
                  | Progress _ total_size | Complete _ total_size => Some total_size
                  | Print _ => None
                  end) evs.

Definition printed (evs : list event) : list string :=
  omap (fun ev => match ev with
                  | Print msg => Some msg
                  | _ => None
                  end) evs.

(** The events that a run from [p] to [p'] added. *)
Definition new_events (p p' : proc) : list event :=
  drop (length (out p)) (out p').

(** A run completes without error when it returns and has reported no
    error; it ends in an error otherwise. *)
Definition completes_without_error (r : res unit) (evs : list event) : Prop :=
  r = Ok tt /\ printed evs = [].

Definition ends_in_error (r : res unit) (evs : list event) : Prop :=
  r <> Ok tt \/ printed evs <> [].

(** The bytes of the items of a stream. *)
Fixpoint data_of (items : list read) : list Byte.byte :=
  match items with
  | [] => []
  | Data chunk :: items' => chunk ++ data_of items'
  | Fault _ :: items' => data_of items'
  end.

(** The bytes of the body that the stream delivers. *)
Definition body_bytes (r : response) : list Byte.byte :=
  data_of (iter_chunked (content r)).

Definition is_fault (item : read) : bool :=
  match item with
  | Fault _ => true
  | Data _ => false
  end.

Definition returns (cb : callback) : Prop :=
  forall f downloaded total_size, cb = Some f -> f downloaded total_size = None.

(** Nothing fails after the response headers have arrived: the status is
    accepted, the directory and the file can be made, written and
    closed, the body arrives whole, the callbacks return, and the
    response and the session are closed without an exception. *)
Definition nothing_else_fails (j : job) (r : response) : Prop :=
  raise_for_status r = Ok tt
  /\ makedirs_fault (env j) = None
  /\ open_fault (env j) = None
  /\ (forall k, write_fault (env j) k = None)
  /\ existsb is_fault (iter_chunked (content r)) = false
  /\ returns (progress_callback j)
  /\ returns (completion_callback j)
  /\ close_fault (env j) = None
  /\ release_fault (env j) = None
  /\ session_close_fault (env j) = None.

(** The process with other files, and with more events. *)
Definition with_files (fs : gmap string (list Byte.byte)) (p : proc) : proc :=
  {| _instance := _instance p; files := fs; out := out p;
     next_task := next_task p; tasks := tasks p |}.

Definition with_out (evs : list event) (p : proc) : proc :=
  {| _instance := _instance p; files := files p; out := (out p ++ evs)%list;
     next_task := next_task p; tasks := tasks p |}.

(** The number of bytes of some chunks. *)
Definition size_of (chunks : list (list Byte.byte)) : Z :=
  Z.of_nat (length (concat chunks)).

(** The value of [downloaded] after each of the chunks, from [d] on. *)
Fixpoint sums (d : Z) (chunks : list (list Byte.byte)) : list Z :=
  match chunks with
  | [] => []
  | chunk :: chunks' =>
      let d' := (d + Z.of_nat (length chunk))%Z in
      d' :: sums d' chunks'
  end.

(** One call of the progress callback for each of the chunks, and the
    call of the completion callback; a callback that is [None] is not
    called. *)
Definition progress_calls (cb : callback) (t d : Z)
           (chunks : list (list Byte.byte)) : list event :=
  match cb with
  | Some _ => (fun v => Progress v t) <$> sums d chunks
  | None => []
  end.

Definition completion_calls (cb : callback) (d t : Z) : list event :=
  match cb with
  | Some _ => [Complete d t]
  | None => []
  end.

(** What a call of a callback gives. *)
Definition called (cb : callback) (d t : Z) : res unit :=
  match cb with
  | Some f => match f d t with
              | Some e => Raise e
              | None => Ok tt
              end
  | None => Ok tt
  end.

(** The chunks were written and reported without an exception: the
    writes from the [k]-th on succeeded, and the progress callback
    returned from each of its calls. *)
Definition reported_ok (j : job) (t : Z) (k : nat) (d : Z)
           (chunks : list (list Byte.byte)) : Prop :=
  (forall i, (i < length chunks)%nat -> write_fault (env j) (k + i) = None)
  /\ (forall v, v ∈ sums d chunks -> called (progress_callback j) v t = Ok tt).

(** How the loop ends after it has written [chunks], with [rest] of the
    items left: at the end of the items; at an item that raises; at a
    write that raises; or in the call of the progress callback for the
    last of the chunks.  Each chunk before that was written and reported
    without an exception. *)
Inductive loop_end (j : job) (t : Z) (k : nat) (d : Z)
          (chunks : list (list Byte.byte)) (rest : list read)
  : res Z -> Prop :=
| loop_done :
    rest = [] ->
    reported_ok j t k d chunks ->
    loop_end j t k d chunks rest (Ok (d + size_of chunks)%Z)
| loop_read e rest' :
    rest = Fault e :: rest' ->
    reported_ok j t k d chunks ->
    loop_end j t k d chunks rest (Raise e)
| loop_write e chunk rest' :
    rest = Data chunk :: rest' ->
    reported_ok j t k d chunks ->
    write_fault (env j) (k + length chunks) = Some e ->
    loop_end j t k d chunks rest (Raise e)
| loop_progress e chunks' chunk :
    chunks = (chunks' ++ [chunk])%list ->
    reported_ok j t k d chunks' ->
    write_fault (env j) (k + length chunks') = None ->
    called (progress_callback j) (d + size_of chunks)%Z t = Raise e ->
    loop_end j t k d chunks rest (Raise e).

(** The destination was not opened: the GET or a statement before
    [open], or [open] itself, has raised. *)
Definition not_opened (j : job) : Prop :=
  (exists e, get_result (env j) = Raise e)
  \/ exists r, get_result (env j) = Ok r
               /\ (raise_for_status r <> Ok tt
                   \/ (exists e', content_length r = Raise e')
                   \/ makedirs_fault (env j) <> None
                   \/ open_fault (env j) <> None).

(** The destination was opened, the loop has written [chunks] and ended
    with [loop]. *)
Definition opened (j : job) (r : response) (t : Z)
           (chunks : list (list Byte.byte)) (rest : list read)
           (loop : res Z) : Prop :=
  get_result (env j) = Ok r
  /\ raise_for_status r = Ok tt
  /\ content_length r = Ok t
  /\ makedirs_fault (env j) = None
  /\ open_fault (env j) = None
  /\ iter_chunked (content r) = ((Data <$> chunks) ++ rest)%list
  /\ loop_end j t 0 0 chunks rest loop.

(** The process after [discard]. *)
Definition discarded (task : nat) (p : proc) : proc :=
  set_instance (fmap (fun s => s ∖ {[task]})) p.

(** What the except clause and the [finally] clause of [download_file]
    make of the outcome of the statements under [try:]. *)
Definition finish (task : nat) (j : job) (body : res unit * proc)
  : res unit * proc :=
  match body with
  | (Ok _, p') => (Ok tt, discarded task p')
  | (Raise e, p') =>
      if is_Exception e
      then (Ok tt, discarded task (with_out [Print (error_message j e)] p'))
      else (Raise e, discarded task p')
  end.

(** The outcome of the statements under [try:] once the block of the
    response is left with [pending]. *)
Definition closed (j : job) (pending : res unit) : res unit :=
  leave (session_close_fault (env j)) (leave (release_fault (env j)) pending).

(** The statements under [try:] from an await of the [async for] on. *)
Definition rest_of_body (j : job) (t : Z) (items : list read) (k : nat)
           (d : Z) : M proc unit :=
  fun p =>
    match bind (leaving (close_fault (env j)) (stream j t items k d))
               (fun downloaded =>
                  call (completion_callback j) Complete downloaded t) p
    with
    | (pending, p') => (closed j pending, p')
    end.

(** The coordinator and the loop are as they were: the set, the tasks
    and the name of the next task. *)
Definition same_coordinator (p p' : proc) : Prop :=
  _instance p' = _instance p
  /\ tasks p' = tasks p
  /\ next_task p' = next_task p.

(** A statement keeps the coordinator. *)
Definition keeps {A} (m : M proc A) : Prop :=
  forall p, same_coordinator p (snd (m p)).

(** The task [task] with the arguments [j], resumed at [st] in [p] and
    then again whenever it is suspended, comes to its end with the result
    [r] in [p']. *)
Inductive runs_to (task : nat) (j : job)
  : stage -> proc -> res unit -> proc -> Prop :=
| runs_on st p st' p1 r p' :
    resume task j st p = (Ok (Some st'), p1) ->
    runs_to task j st' p1 r p' ->
    runs_to task j st p r p'
| runs_out st p p' :
    resume task j st p = (Ok None, p') ->
    runs_to task j st p (Ok tt) p'
| runs_raise st p e p' :
    resume task j st p = (Raise e, p') ->
    runs_to task j st p (Raise e) p'.

(** The names of the tasks in the loop and in the set are names that
    [start_download] has given out. *)
Definition named (p : proc) : Prop :=
  forall t, t ∈ dom (tasks p) ∪ _download_tasks p -> (t < next_task p)%nat.

(** The task [t] is over and the set still holds it. *)
Definition left_behind (t : nat) (p : proc) : Prop :=
  t ∈ _download_tasks p /\ tasks p !! t = None.

End Observed.

(** ** Sample data *)

Module Samples.
Import VsixApiHandler DownloadManager SearchScreen.

(** The answer of the specification's example: one extension with two
    version entries, the package file second among the files of the
    first. *)
Definition sample_files : json :=
  JArr [JObj [("assetType", JStr "Other"); ("source", JStr "A")];
        JObj [("assetType", JStr VSIX_PACKAGE); ("source", JStr "B")]].

Definition sample_extension : json :=
  JObj [("publisher", JObj [("publisherName", JStr "ms-python")]);
        ("extensionName", JStr "python");
        ("displayName", JStr "Python");
        ("versions",
          JArr [JObj [("version", JStr "2.0.0"); ("files", sample_files)];
                JObj [("version", JStr "1.0.0"); ("files", JArr [])]])].

Definition sample_data : json :=
  JObj [("results", JArr [JObj [("extensions", JArr [sample_extension])]])].

(** An answer with a first entry that parses and a second one without
    its [versions]. *)
Definition incomplete_data : json :=
  JObj [("results",
          JArr [JObj [("extensions",
                        JArr [sample_extension;
                              JObj [("publisher",
                                      JObj [("publisherName", JStr "acme")]);
                                    ("extensionName", JStr "broken")]])]])].

Definition answer (status : Z) (data : json) : api_response :=
  {| status_code := status; body := Some data |}.

(** The request is answered, undisturbed or with a [stop] on the way. *)
Definition undisturbed (data : json) : net :=
  {| stop_during_post := false; post_result := Ok (answer 200 data) |}.

Definition stopped (data : json) : net :=
  {| stop_during_post := true; post_result := Ok (answer 200 data) |}.

(** A body of five bytes that arrives in two reads. *)
Definition hello : list read :=
  [Data [Byte.x68; Byte.x65]; Data [Byte.x6c; Byte.x6c; Byte.x6f]].

Definition served (headers : list (string * string)) : response :=
  {| status := 200; headers := headers; content := hello |}.

(** Surroundings in which nothing fails once the response is there. *)
Definition calm (get : res response) : world :=
  {| arrives := get; makedirs_fault := None; open_fault := None;
     write_fault := fun _ => None; close_fault := None;
     release_fault := None; session_close_fault := None |}.

(** A callback that returns, and one that raises. *)
Definition quiet : callback := Some (fun _ _ => None).

Definition broken : callback :=
  Some (fun _ _ => Some (RuntimeError "the widget is gone")).

Definition sample_job (w : world) (on_complete : callback) : job :=
  {| url := "https://example.org/python.vsix";
     output_path := "/home/user/Downloads/python-2.0.0.vsix";
     progress_callback := quiet;
     completion_callback := on_complete;
     env := w |}.

(** A download of the five bytes, announced as five. *)
Definition good_job : job :=
  sample_job (calm (Ok (served [("Content-Length", "5")]))) quiet.

(** The same, with a completion callback that raises. *)
Definition broken_completion_job : job :=
  sample_job (calm (Ok (served [("Content-Length", "5")]))) broken.

(** The same body without the header, and with a header that is no
    number. *)
Definition unannounced_job : job :=
  sample_job (calm (Ok (served []))) quiet.

Definition misannounced_job : job :=
  sample_job (calm (Ok (served [("Content-Length", "abc")]))) quiet.

(** A download whose connection fails. *)
Definition refused_job : job :=
  sample_job (calm (Raise (ClientError "Cannot connect to host"))) quiet.

(** Downloads that fail later: the status is 404, the directory cannot
    be made, the disk is full at the second write, the connection is lost
    after the first read. *)
Definition rejected_job : job :=
  sample_job (calm (Ok {| status := 404; headers := []; content := [] |})) quiet.

Definition no_directory_job : job :=
  sample_job {| arrives := Ok (served []);
                makedirs_fault := Some (OSError "Permission denied");
                open_fault := None; write_fault := fun _ => None;
                close_fault := None; release_fault := None;
                session_close_fault := None |} quiet.

Definition disk_full_job : job :=
  sample_job {| arrives := Ok (served []);
                makedirs_fault := None; open_fault := None;
                write_fault := fun k => match k with
                                        | 1%nat => Some (OSError "No space left on device")
                                        | _ => None
                                        end;
                close_fault := None; release_fault := None;
                session_close_fault := None |} quiet.

(** The disk is full when the file is closed; and the task is cancelled
    while it closes the session, after the download. *)
Definition late_disk_full_job : job :=
  sample_job {| arrives := Ok (served []);
                makedirs_fault := None; open_fault := None;
                write_fault := fun _ => None;
                close_fault := Some (OSError "No space left on device");
                release_fault := None; session_close_fault := None |} quiet.

Definition cancelled_closing_job : job :=
  sample_job {| arrives := Ok (served [("Content-Length", "5")]);
                makedirs_fault := None; open_fault := None;
                write_fault := fun _ => None; close_fault := None;
                release_fault := None;
                session_close_fault := Some CancelledError |} quiet.

Definition lost_job : job :=
  sample_job (calm (Ok {| status := 200; headers := [];
                          content := [Data [Byte.x68; Byte.x65];
                                      Fault (ClientError "Connection lost")] |}))
             quiet.

(** A download that is cancelled while it waits for the response. *)
Definition cancelled_job : job :=
  sample_job (calm (Raise CancelledError)) quiet.

(** Two downloads are started and run in turns: both begin to run, the
    first gets its response and reads its first chunk, the second fails
    to connect and closes its session. *)
Definition sample_acts : list action :=
  [StartDownload good_job; StartDownload refused_job;
   Resume 0; Resume 1; Resume 0; Resume 1; Resume 0; Resume 1].

(** Two results of one search with one extension name, from two
    publishers. *)
Definition first_hit : Extension :=
  {| publisher := "ms-python"; domain := Some "microsoft.com";
     name := "python"; display_name := "Python";
     last_updated := "2024-05-01T00:00:00Z"; description := None;
     version := Some "2.0.0";
     download_url := Some "https://example.org/ms-python/python-2.0.0.vsix" |}.

Definition second_hit : Extension :=
  {| publisher := "someone"; domain := None;
     name := "python"; display_name := "Python (fork)";
     last_updated := "Unknown"; description := None;
     version := Some "0.1.0";
     download_url := Some "https://example.org/someone/python-0.1.0.vsix" |}.

End Samples.

(** ** The fields of an entry, as the records of a search show them *)

Module Fields.
Import VsixApiHandler.

(** The value bound to [k] in an object. *)
Definition member (k : string) (j : json) : option json :=
  match j with
  | JObj fields => assoc k fields
  | _ => None
  end.

(** A field read with [.get(k, d)]: the string it is bound to, the
    default when the key is missing, nothing when the key is bound to
    [null]. *)
Definition optional_field (k : string) (d : string) (j : json)
  : option string :=
  match member k j with
  | None => Some d
  | Some (JStr s) => Some s
  | Some _ => None
  end.

(** The exceptions that parsing one entry can end with. *)
Definition entry_error (e : exn) : Prop :=
  e = KeyError \/ e = IndexError \/ e = TypeError \/ e = ValidationError.

(** The exceptions that [_parse_results] can end with. *)
Definition parse_error (e : exn) : Prop :=
  e = ValueError PARSE_FAILURE \/ e = TypeError \/ e = ValidationError.

End Fields.

(** ** The set and the tasks of the loop *)

Module Tracking.
Import DownloadManager.

(** The set holds the tasks of the loop that have not finished, and no
    other. *)
Definition tracked (p : proc) : Prop :=
  _download_tasks p = dom (tasks p).

(** The action is not the cancellation of a task that has not yet run. *)
Definition begun (a : action) (p : proc) : Prop :=
  forall t c, a = Cancel t -> tasks p !! t = Some c -> suspended c <> Created.

End Tracking.

(** ** The rest of [vdl/tui/screens/search_screen.py] *)

Module SearchWorker.
Import VsixApiHandler SearchScreen.

(** How the coroutine of a worker ends.  [search_screen.py] imports no
    [asyncio], so the name in [await asyncio.sleep(4)] is unbound when
    the line is reached and Python raises [NameError], a class that the
    code modelled above never meets. *)
Inductive outcome : Type :=
| Returned
| Raised (e : exn)
| NameError (name : string).

(** A [SearchScreen]: its query, its handler, the dict and the container
    with their widgets, the [loading] flag of the container, the
    messages passed to [notify] and the values passed to [dismiss]. *)
Record view : Type := {
  search_query : option string;
  api_handler : client;
  shown : screen;
  loading : bool;
  notified : list string;
  dismissed : list (option Extension);
}.

Definition set_api_handler (c : client) (v : view) : view :=
  {| search_query := search_query v; api_handler := c; shown := shown v;
     loading := loading v; notified := notified v;
     dismissed := dismissed v |}.

Definition set_shown (s : screen) (v : view) : view :=
  {| search_query := search_query v; api_handler := api_handler v;
     shown := s; loading := loading v; notified := notified v;
     dismissed := dismissed v |}.

Definition set_loading (b : bool) (v : view) : view :=
  {| search_query := search_query v; api_handler := api_handler v;
     shown := shown v; loading := b; notified := notified v;
     dismissed := dismissed v |}.

(** [self.notify(msg)] *)
Definition notify (msg : string) (v : view) : view :=
  {| search_query := search_query v; api_handler := api_handler v;
     shown := shown v; loading := loading v;
     notified := notified v ++ [msg]; dismissed := dismissed v |}.

(** [self.dismiss(result)] *)
Definition dismiss (result : option Extension) (v : view) : view :=
  {| search_query := search_query v; api_handler := api_handler v;
     shown := shown v; loading := loading v; notified := notified v;
     dismissed := dismissed v ++ [result] |}.

(** [SearchScreen(search_query)], pushed and composed; [dict] is the
    class attribute [extensions] as the screens before left it. *)
Definition SearchScreen_init (dict : gmap string Extension)
           (query : option string) : view :=
  {| search_query := query; api_handler := init; shown := pushed dict;
     loading := false; notified := []; dismissed := [] |}.

(** The loop of [populate_extensions] and the statement after it. *)
Definition mount_results (search_results : list Extension) (v : view)
  : outcome * view :=
  match populate_extensions search_results (shown v) with
  | (Ok _, s) => (Returned, set_loading false (set_shown s v))
  | (Raise e, s) => (Raised e, set_shown s v)
  end.

(** [populate_extensions], whole: the coroutine that [@work] runs.  In
    the except clause the name [asyncio] is looked up after [notify] and
    before [dismiss]: the [NameError] leaves the clause, and neither
    [dismiss] nor the loop nor [vertical.loading = False] is reached.
    An exception that is not of class [Exception] is not caught. *)
Definition populate_extensions_work (w : net) (v : view) : outcome * view :=
  match search_query v with
  | Some (String _ _ as query) =>
      match search_extensions w query false 10 1 (api_handler v) with
      | (Ok search_results, c) =>
          mount_results search_results (set_api_handler c v)
      | (Raise e, c) =>
          if is_Exception e then
            (NameError "asyncio",
             notify ("Exception searching for extensions: " +:+ exn_str e)
                    (set_api_handler c v))
          else (Raised e, set_api_handler c v)
      end
  | _ => mount_results [] v
  end.

(** [on_mount], with the worker it starts run to its end. *)
Definition on_mount (w : net) (v : view) : outcome * view :=
  populate_extensions_work w (set_loading true v).

(** [action_back] *)
Definition action_back (v : view) : view :=
  dismiss None (set_api_handler (stop (api_handler v)) v).

(** What the loop of [populate_extensions] keeps between the dict and
    the container, for results taken from [from]: the ids of the widgets
    differ, a widget has the name of its record as id, and the dict binds
    that id to a record of that name, one of [from] as well. *)
Definition consistent (from : list Extension) (s : screen) : Prop :=
  NoDup (container s).*1
  /\ forall id e, (id, e) ∈ container s ->
       id = name e
       /\ e ∈ from
       /\ exists e', extensions s !! id = Some e' /\ name e' = id /\ e' ∈ from.

End SearchWorker.

(** * Properties of the search client *)

Module SearchProps.
Import VsixApiHandler Shape Samples.

Ltac run_search :=
  unfold search_extensions, _call_api, post, bind, try_except, clear, record,
    modify, lift, is_set, ret, raise_; cbn.

Ltac close_trace :=
  cbn; rewrite <- ?app_assoc; cbn; eexists; split; reflexivity.

Lemma search_trace w q bp ps pn c :
  exists tl, trace (snd (search_extensions w q bp ps pn c)) =
    (trace c ++ Clear :: Post API_URL (_build_query (if bp then 4 else 10)%Z q pn ps) HEADERS 10
            :: tl)%list
   /\ posted tl = [].
Proof.
  run_search.
  destruct (post_result w) as [r|e]; cbn.
  - destruct (stop_during_post w); cbn; [close_trace|].
    destruct (httpx_raise_for_status r) as [[]|e]; cbn; [|destruct e; close_trace].
    destruct (response_json r) as [j|e]; cbn; [|destruct e; close_trace].
    destruct (truthy j); close_trace.
  - destruct (stop_during_post w); cbn; destruct e; close_trace.
Qed.

Lemma first_source_typed files :
  forallb typed_file files = true ->
  if complete_files files
  then exists v, first_source files = Ok v
                 /\ validate_optional_str v
                    = Ok (find (fun file => bool_decide (str_field "assetType" file = Some VSIX_PACKAGE)) files
                          ≫= str_field "source")
  else first_source files = Raise KeyError.
Proof.
  induction files as [|file files IH]; cbn [forallb complete_files first_source find].
  - intros _. exists JNull. done.
  - intros [Hf Hfs]%andb_prop. specialize (IH Hfs).
    destruct file as [| | | | |fields]; try discriminate Hf.
    unfold typed_file, typed_field in Hf. unfold subscript, res_bind, has, str_field.
    destruct (assoc "assetType" fields) as [a|] eqn:Ha; [|done].
    destruct a as [| | |s| |]; cbn [eq_str]; try (rewrite bool_decide_eq_false_2 by congruence; exact IH).
    destruct (String.eqb_spec s VSIX_PACKAGE) as [->|Hne].
    + rewrite bool_decide_eq_true_2 by done. cbn [mbind option_bind].
      destruct (assoc "source" fields) as [v|]; [|done].
      exists v. split; [done|]. destruct v; try discriminate Hf; done.
    + rewrite bool_decide_eq_false_2 by congruence. exact IH.
Qed.

Ltac split_andb H :=
  repeat match type of H with
         | (_ && _) = true =>
             let H' := fresh H in
             apply andb_prop in H; destruct H as [H H']
         end.

Lemma parse_extension_typed ext :
  typed_extension ext = true ->
  if complete_extension ext
  then exists e, parse_extension ext = Ok e /\ extracted ext e
  else key_or_index (parse_extension ext).
Proof.
  destruct ext as [| | | | |fields]; try discriminate.
  unfold typed_extension, typed_field. intros H. split_andb H.
  unfold complete_extension, parse_extension, has, key_or_index, extracted, first_version,
    subscript, get, subscript0.
  destruct (assoc "publisher" fields) as [p|] eqn:Hp; cbn [andb res_bind]; [|auto].
  destruct p as [| | | | |pf]; try (cbn in *; discriminate).
  unfold typed_publisher, typed_field in H. split_andb H.
  destruct (assoc "publisherName" pf) as [pn|] eqn:Hpn; cbn [andb res_bind]; [|auto].
  destruct (assoc "extensionName" fields) as [en|] eqn:Hen; cbn [andb res_bind]; [|auto].
  destruct (assoc "versions" fields) as [vs|] eqn:Hvs; cbn [andb res_bind]; [|auto].
  destruct vs as [| | | |vl|]; try (cbn in *; discriminate).
  destruct vl as [|v0 vrest]; cbn [res_bind]; [auto|].
  cbn [typed_versions] in *.
  destruct v0 as [| | | | |vf]; try (cbn in *; discriminate).
  unfold typed_version, typed_field in *. split_andb H0.
  unfold complete_version, has, str_field, package_source.
  destruct (assoc "version" vf) as [ver|] eqn:Hver; cbn [andb res_bind]; [|auto].
  destruct (assoc "files" vf) as [fs|] eqn:Hfs; cbn [andb res_bind]; [|auto].
  destruct fs as [| | | |files|]; try (cbn in *; discriminate).
  cbn [is_list_of iterate res_bind] in *.
  pose proof (first_source_typed files ltac:(done)) as Hsrc.
  destruct (complete_files files); [|rewrite Hsrc; auto].
  destruct Hsrc as (src & -> & Hval). cbn [res_bind].
  unfold Extension_init.
  destruct pn; try discriminate. cbn [validate_str res_bind].
  destruct en; try discriminate. cbn [validate_str res_bind].
  rewrite Hval.
  destruct (assoc "domain" pf) as [[]|]; try discriminate; cbn [default validate_optional_str res_bind];
  destruct (assoc "lastUpdated" fields) as [[]|]; try discriminate; cbn [default validate_str res_bind];
  destruct (assoc "displayName" fields) as [[]|]; try discriminate; cbn [default validate_str res_bind];
  destruct (assoc "shortDescription" fields) as [[]|]; try discriminate; cbn [default validate_optional_str res_bind];
  destruct ver; try discriminate; cbn [validate_optional_str res_bind];
  eexists; (split; [reflexivity|]); eexists; (split; [reflexivity|]);
  cbn; rewrite ?Hver, ?Hfs; split; reflexivity.
Qed.

Lemma parse_loop_typed exts : forall acc,
  forallb typed_extension exts = true ->
  if forallb complete_extension exts
  then exists l, parse_loop acc exts = Ok (acc ++ l)%list /\ Forall2 extracted exts l
  else key_or_index (parse_loop acc exts).
Proof.
  induction exts as [|ext exts IH]; intros acc; cbn [forallb parse_loop].
  - intros _. exists []. by rewrite app_nil_r.
  - intros [Hext Hexts]%andb_prop.
    pose proof (parse_extension_typed ext Hext) as He.
    destruct (complete_extension ext); cbn [andb].
    + destruct He as (e & -> & He). cbn [res_bind].
      specialize (IH (acc ++ [e])%list Hexts).
      destruct (forallb complete_extension exts); [|exact IH].
      destruct IH as (l & -> & Hl). exists (e :: l).
      split; [by rewrite <- app_assoc|by constructor].
    + destruct He as [-> | ->]; [by left|by right].
Qed.

Lemma parse_results_entries data exts :
  entries data = Some exts ->
  _parse_results data =
  match parse_loop [] exts with
  | Raise KeyError | Raise IndexError => Raise (ValueError PARSE_FAILURE)
  | r => r
  end.
Proof.
  unfold entries, _parse_results, subscript.
  destruct data as [| | | | |fields]; try discriminate.
  destruct (assoc "results" fields) as [[| | | |[|[| | | | |r] ?]|]|]; try discriminate.
  cbn [res_bind subscript0].
  destruct (assoc "extensions" r) as [[| | | |exts0|]|]; try discriminate.
  by intros [= ->].
Qed.

Lemma parse_results_typed data :
  typed_response data = true ->
  if complete_response data
  then exists exts l, entries data = Some exts
                      /\ _parse_results data = Ok l /\ Forall2 extracted exts l
  else _parse_results data = Raise (ValueError PARSE_FAILURE).
Proof.
  unfold complete_response.
  destruct (entries data) as [exts|] eqn:Hent.
  - rewrite (parse_results_entries _ _ Hent). intros Ht.
    assert (forallb typed_extension exts = true) as Hexts.
    { revert Ht Hent. unfold typed_response, entries, typed_field.
      destruct data as [| | | | |fields]; try discriminate.
      destruct (assoc "results" fields) as [[| | | |[|[| | | | |r] ?]|]|]; try discriminate.
      cbn [typed_results]. unfold typed_field.
      destruct (assoc "extensions" r) as [[| | | |exts0|]|]; try discriminate.
      by intros ? [= ->]. }
    pose proof (parse_loop_typed exts [] Hexts) as Hl.
    destruct (forallb complete_extension exts).
    + destruct Hl as (l & -> & Hl). by exists exts, l.
    + by destruct Hl as [-> | ->].
  - revert Hent. unfold typed_response, entries, typed_field, _parse_results, subscript.
    destruct data as [| | | | |fields]; try discriminate.
    destruct (assoc "results" fields) as [rs|]; [|done].
    destruct rs as [| | | |[|r0 rs]|]; try discriminate; [done|].
    destruct r0 as [| | | | |r]; try discriminate.
    cbn [typed_results res_bind subscript0]. unfold typed_field.
    destruct (assoc "extensions" r) as [[| | | |exts0|]|]; try discriminate; done.
Qed.

Lemma search_answers w data q bp ps pn c :
  answers w data ->
  fst (search_extensions w q bp ps pn c) =
  if truthy data then _parse_results data else Ok [].
Proof.
  intros (Hstop & r & Hpost & Hstatus & Hbody).
  unfold search_extensions, _call_api, post, bind, try_except, clear, record,
    modify, lift, is_set, ret, raise_, response_json.
  cbn. rewrite Hstop, Hpost. cbn. rewrite Hstatus, Hbody.
  destruct (truthy data); [|done].
  by destruct (_parse_results data) as [?|[]].
Qed.

Lemma undisturbed_answers data : answers (undisturbed data) data.
Proof. split; [done|]. by exists (answer 200 data). Qed.

(** ** C7 *)

(** C7. Whatever the query, the page size and the page number, a search
    posts one payload; its [filters] hold one filter with one criterion,
    whose [filterType] is 4 for a search by publisher and 10 for a search
    by name, with [sortBy] 0 and [sortOrder] 0; [assetTypes] is empty and
    [flags] is 514.  For one query the two payloads differ at
    [criteria[0].filterType] and nowhere else: each is the other with that
    one value replaced. *)
Theorem build_query_payload (w : net) (query : string)
        (page_size page_number : Z) (c : client) :
  let payload (by_publisher : bool) :=
    _build_query (if by_publisher then 4 else 10)%Z query page_number page_size in
  (forall by_publisher,
      posted (trace (snd (search_extensions w query by_publisher
                                            page_size page_number c)))
      = (posted (trace c) ++ [payload by_publisher])%list
      /\ at_path [Key "filters"] (payload by_publisher)
         = Some (JArr [JObj [("criteria",
                               JArr [JObj [("filterType",
                                             JNum (if by_publisher then 4 else 10)%Z);
                                           ("value", JStr query)]]);
                             ("pageNumber", JNum page_number);
                             ("pageSize", JNum page_size);
                             ("sortBy", JNum 0);
                             ("sortOrder", JNum 0)]])
      /\ at_path [Key "assetTypes"] (payload by_publisher) = Some (JArr [])
      /\ at_path [Key "flags"] (payload by_publisher) = Some (JNum 514))
  /\ payload true = set_path FILTER_TYPE (JNum 4) (payload false)
  /\ payload false = set_path FILTER_TYPE (JNum 10) (payload true)
  /\ payload true <> payload false.
Proof.
  intros payload. split; [|repeat split; discriminate].
  intros bp. split; [|repeat split].
  destruct (search_trace w query bp page_size page_number c) as (tl & -> & Htl).
  unfold posted in *. rewrite omap_app. cbn. rewrite Htl. reflexivity.
Qed.

(** ** C4 *)

(** C4. A search first clears the flag and then posts the request, so its
    result does not depend on the flag it finds: a [stop] before the call
    cancels nothing.  When [stop] is called while the request is pending
    and a response then arrives, the search returns the empty list and
    raises nothing. *)
Theorem stop_before_response (w : net) (query : string) (by_publisher : bool)
        (page_size page_number : Z) (c : client) :
  let search := search_extensions w query by_publisher page_size page_number in
  let payload :=
    _build_query (if by_publisher then 4 else 10)%Z query page_number page_size in
  (exists tl, trace (snd (search c))
              = (trace c ++ Clear :: Post API_URL payload HEADERS 10 :: tl)%list)
  /\ (forall c', fst (search c') = fst (search c))
  /\ (forall r, post_result w = Ok r -> stop_during_post w = true ->
                fst (search c) = Ok []).
Proof.
  intros search payload. split; [|split].
  - destruct (search_trace w query by_publisher page_size page_number c)
      as (tl & Htl & _).
    by exists tl.
  - intros c'. subst search. run_search.
    destruct (post_result w) as [r|e]; cbn.
    + destruct (stop_during_post w); cbn; [done|].
      destruct (httpx_raise_for_status r) as [[]|e]; cbn; [|by destruct e].
      destruct (response_json r) as [j|e]; cbn; [|by destruct e].
      destruct (truthy j); [|done].
      by destruct (_parse_results j).
    + destruct (stop_during_post w); cbn; by destruct e.
  - intros r Hr Hstop. subst search. run_search. by rewrite Hr, Hstop.
Qed.

Lemma stop_before_response_witness :
  fst (search_extensions (stopped sample_data) "python" false 10 1 (stop init))
  = Ok [].
Proof.
  exact (proj2 (proj2 (stop_before_response (stopped sample_data) "python"
                                            false 10 1 (stop init)))
               (answer 200 sample_data) eq_refl eq_refl).
Defined.

Lemma assoc_set_same k v v' fields :
  assoc k fields = Some v' -> assoc k (assoc_set k v fields) = Some v.
Proof.
  induction fields as [|[k' w] fields IH]; cbn; [done|].
  destruct (String.eqb_spec k k') as [->|Hne]; cbn.
  - intros _. by rewrite String.eqb_refl.
  - intros H. apply String.eqb_neq in Hne. rewrite Hne. by apply IH.
Qed.

Lemma assoc_set_other k k' v fields :
  k <> k' -> assoc k' (assoc_set k v fields) = assoc k' fields.
Proof.
  intros Hne. induction fields as [|[k0 w] fields IH]; cbn; [done|].
  destruct (String.eqb_spec k k0) as [->|Hne0]; cbn.
  - apply String.eqb_neq in Hne. rewrite String.eqb_sym in Hne. by rewrite Hne.
  - by rewrite IH.
Qed.

(** The elements of [versions] after the first do not enter the record. *)
Lemma later_versions_ignored fields v0 rest rest' :
  assoc "versions" fields = Some (JArr (v0 :: rest)) ->
  parse_extension (JObj (assoc_set "versions" (JArr (v0 :: rest')) fields))
  = parse_extension (JObj fields).
Proof.
  intros Hv. unfold parse_extension, subscript, get.
  rewrite (assoc_set_same _ _ _ _ Hv), Hv.
  by rewrite !assoc_set_other by done.
Qed.

(** ** C6 *)

(** C6. When the marketplace answers with entries that are typed and
    complete, the search returns one record for each entry, in order; the
    record's [version] is the version string of the first element of the
    entry's [versions], and its [download_url] is the [source] of the
    first file of that element whose [assetType] is the package tag, unset
    when no file has the tag.  Nothing of a later element of [versions]
    enters the record: an entry with other elements after the first is
    parsed to the same result. *)
Theorem first_version_and_package_source (w : net) (data : json)
        (exts : list json) (query : string) (by_publisher : bool)
        (page_size page_number : Z) (c : client) :
  answers w data ->
  entries data = Some exts ->
  forallb typed_extension exts = true ->
  forallb complete_extension exts = true ->
  (exists records,
      fst (search_extensions w query by_publisher page_size page_number c)
      = Ok records
      /\ Forall2 extracted exts records)
  /\ (forall fields v0 rest rest',
         assoc "versions" fields = Some (JArr (v0 :: rest)) ->
         parse_extension
           (JObj (assoc_set "versions" (JArr (v0 :: rest')) fields))
         = parse_extension (JObj fields)).
Proof.
  intros Hw Hent Htyped Hcomplete.
  split; [|apply later_versions_ignored].
  rewrite (search_answers _ _ _ _ _ _ _ Hw).
  assert (truthy data = true) as ->.
  { revert Hent. unfold entries. destruct data as [| | | | |[|? ?]]; done. }
  rewrite (parse_results_entries _ _ Hent).
  pose proof (parse_loop_typed exts [] Htyped) as Hl.
  rewrite Hcomplete in Hl. destruct Hl as (l & -> & Hl). by exists l.
Qed.

Lemma first_version_and_package_source_witness :
  exists records,
    fst (search_extensions (undisturbed sample_data) "python" false 10 1 init)
    = Ok records
    /\ Forall2 extracted [sample_extension] records.
Proof.
  exact (proj1 (first_version_and_package_source
                  (undisturbed sample_data) sample_data [sample_extension]
                  "python" false 10 1 init
                  (undisturbed_answers sample_data) eq_refl eq_refl eq_refl)).
Defined.

(** The example of the specification: the second file carries the
    package tag, and the version is that of the first entry. *)
Example sample_search :
  fst (search_extensions (undisturbed sample_data) "python" false 10 1 init)
  = Ok [{| publisher := "ms-python";
           domain := Some "marketplace.visualstudio.com";
           name := "python"; display_name := "Python";
           last_updated := "Unknown";
           description := Some "No description available.";
           version := Some "2.0.0"; download_url := Some "B" |}].
Proof. reflexivity. Qed.

(** ** C5 *)

(** C5, as the specification states it, fails on the empty object: the
    key [results] is missing, and the search returns the empty list
    without raising. *)
Lemma empty_object_is_not_parsed :
  answers (undisturbed (JObj [])) (JObj [])
  /\ typed_response (JObj []) = true
  /\ complete_response (JObj []) = false
  /\ fst (search_extensions (undisturbed (JObj [])) "python" false 10 1 init)
     = Ok []
  /\ ~ (forall w data query by_publisher page_size page_number c,
           answers w data ->
           typed_response data = true ->
           complete_response data = false ->
           fst (search_extensions w query by_publisher page_size page_number c)
           = Raise (ValueError PARSE_FAILURE)).
Proof.
  split; [apply undisturbed_answers|]. repeat split.
  intros H.
  specialize (H (undisturbed (JObj [])) (JObj []) "python" false 10%Z 1%Z init
                (undisturbed_answers _) eq_refl eq_refl).
  discriminate H.
Qed.

(** C5, amended. When the marketplace answers with a body that is not
    empty and is typed, and a key of the expected structure is missing or
    an indexed array is empty, the search raises the parsing error and
    returns no list, whatever entries come before the defect.  A failure
    of the network raises another exception. *)
Theorem incomplete_response_fails (w : net) (data : json) (query : string)
        (by_publisher : bool) (page_size page_number : Z) (c : client) :
  answers w data ->
  truthy data = true ->
  typed_response data = true ->
  complete_response data = false ->
  fst (search_extensions w query by_publisher page_size page_number c)
  = Raise (ValueError PARSE_FAILURE)
  /\ forall w', network_failure w' ->
                exists e, fst (search_extensions w' query by_publisher
                                                 page_size page_number c)
                          = Raise e
                          /\ e <> ValueError PARSE_FAILURE.
Proof.
  intros Hw Htruthy Htyped Hcomplete. split.
  - rewrite (search_answers _ _ _ _ _ _ _ Hw), Htruthy.
    pose proof (parse_results_typed data Htyped) as H.
    by rewrite Hcomplete in H.
  - intros w' [(e & He & Hreq)|(Hstop & r & Hr & Hstatus)]; run_search.
    + rewrite He. destruct (stop_during_post w'); cbn; rewrite Hreq; cbn;
        by eexists.
    + rewrite Hr, Hstop. cbn.
      unfold httpx_raise_for_status in *.
      destruct (_ && _)%bool; [done|]. cbn. by eexists.
Qed.

Lemma incomplete_response_fails_witness :
  fst (search_extensions (undisturbed incomplete_data) "python" false 10 1 init)
  = Raise (ValueError PARSE_FAILURE).
Proof.
  exact (proj1 (incomplete_response_fails
                  (undisturbed incomplete_data) incomplete_data
                  "python" false 10 1 init
                  (undisturbed_answers incomplete_data)
                  eq_refl eq_refl eq_refl)).
Defined.

End SearchProps.

(** * Properties of the download coordinator *)

Module DownloadProps.
Import DownloadManager Observed Samples.
Local Open Scope Z_scope.

(** ** Equations of the monad and of the statements of [download_file] *)

Lemma bind_ok {S A B} (m : M S A) (k : A -> M S B) s a s' :
  m s = (Ok a, s') -> bind m k s = k a s'.
Proof. unfold bind. by intros ->. Qed.

Lemma bind_raise {S A B} (m : M S A) (k : A -> M S B) s e s' :
  m s = (Raise e, s') -> bind m k s = (Raise e, s').
Proof. unfold bind. by intros ->. Qed.

Lemma with_out_nil p : with_out [] p = p.
Proof. destruct p. unfold with_out. cbn. by rewrite app_nil_r. Qed.

Lemma with_out_app evs evs' p :
  with_out evs' (with_out evs p) = with_out (evs ++ evs') p.
Proof. unfold with_out. cbn. by rewrite app_assoc. Qed.

Lemma with_files_id p : with_files (files p) p = p.
Proof. by destruct p. Qed.

Lemma file_write_ok w path k chunk p content :
  write_fault w k = None ->
  files p !! path = Some content ->
  file_write w path k chunk p
  = (Ok tt, with_files (<[path := (content ++ chunk)%list]> (files p)) p).
Proof.
  intros Hw Hfile. unfold file_write, bind, fault, modify, set_files, with_files.
  rewrite Hw. cbn. by rewrite Hfile.
Qed.

Lemma file_write_raise w path k chunk p e :
  write_fault w k = Some e ->
  file_write w path k chunk p = (Raise e, p).
Proof. intros Hw. unfold file_write, bind, fault. by rewrite Hw. Qed.

Lemma call_run cb ev d t p :
  call cb ev d t p
  = (called cb d t,
     with_out (match cb with Some _ => [ev d t] | None => [] end) p).
Proof.
  destruct cb as [f|]; cbn.
  - unfold call, called, bind, emit, modify, fault, with_out. cbn.
    by destruct (f d t).
  - by rewrite with_out_nil.
Qed.

Lemma iter_chunked_nonempty reads :
  Forall (fun item => item <> Data []) (iter_chunked reads).
Proof.
  induction reads as [|[[|b chunk]|e] reads IH]; cbn; repeat constructor; done.
Qed.

Lemma size_of_cons chunk chunks :
  size_of (chunk :: chunks) = Z.of_nat (length chunk) + size_of chunks.
Proof. unfold size_of. cbn. rewrite length_app. lia. Qed.

Lemma size_of_snoc chunks chunk :
  size_of (chunks ++ [chunk]) = size_of chunks + Z.of_nat (length chunk).
Proof.
  unfold size_of. rewrite concat_app, length_app. cbn.
  rewrite app_nil_r. lia.
Qed.

Lemma sums_last d chunks :
  chunks <> [] -> last (sums d chunks) = Some (d + size_of chunks).
Proof.
  revert d. induction chunks as [|chunk chunks IH]; intros d Hne; [done|].
  cbn [sums]. rewrite size_of_cons.
  destruct chunks as [|chunk' chunks].
  - cbn. unfold size_of. cbn. f_equal. lia.
  - rewrite last_cons, IH by done. cbn [sums]. f_equal. lia.
Qed.

Lemma sums_sorted d chunks :
  Forall (fun chunk => chunk <> []) chunks ->
  StronglySorted Z.lt (d :: sums d chunks).
Proof.
  revert d. induction chunks as [|chunk chunks IH]; intros d Hne.
  - repeat constructor.
  - apply Forall_cons in Hne as [Hc Hne]. cbn [sums].
    specialize (IH (d + Z.of_nat (length chunk)) Hne).
    assert (0 < Z.of_nat (length chunk)) by (destruct chunk; [done|cbn; lia]).
    constructor; [done|].
    apply StronglySorted_inv in IH as [_ Hall].
    constructor; [lia|].
    eapply Forall_impl; [exact Hall|]. intros x Hx. cbn in Hx. lia.
Qed.

Lemma progress_values_calls cb t d chunks :
  progress_values (progress_calls cb t d chunks)
  = match cb with Some _ => sums d chunks | None => [] end.
Proof.
  destruct cb; [|done]. cbn.
  induction (sums d chunks) as [|v vs IH]; [done|]. cbn. by rewrite IH.
Qed.

Lemma progress_calls_only {B} (g : event -> option B) cb t d chunks :
  (forall v, g (Progress v t) = None) ->
  omap g (progress_calls cb t d chunks) = [].
Proof.
  intros Hg. destruct cb; [|done]. cbn.
  induction (sums d chunks) as [|v vs IH]; [done|]. cbn. by rewrite Hg.
Qed.

Lemma totals_calls cb t d chunks :
  Forall (eq t) (totals (progress_calls cb t d chunks)).
Proof.
  destruct cb; [|constructor]. cbn.
  induction (sums d chunks) as [|v vs IH]; cbn; [constructor|].
  by constructor.
Qed.

Lemma progress_calls_cons f t d chunk chunks :
  progress_calls (Some f) t d (chunk :: chunks)
  = Progress (d + Z.of_nat (length chunk)) t
    :: progress_calls (Some f) t (d + Z.of_nat (length chunk)) chunks.
Proof. done. Qed.

(** ** The loop over the body *)

Lemma reported_ok_nil j t k d : reported_ok j t k d [].
Proof. split; [cbn; lia|]. cbn. by intros v ?%elem_of_nil. Qed.

Lemma reported_ok_cons j t k d chunk chunks :
  write_fault (env j) k = None ->
  called (progress_callback j) (d + Z.of_nat (length chunk)) t = Ok tt ->
  reported_ok j t (S k) (d + Z.of_nat (length chunk)) chunks ->
  reported_ok j t k d (chunk :: chunks).
Proof.
  intros Hw Hc [Hws Hcs]. split.
  - intros [|i] Hi; cbn in Hi.
    + by rewrite Nat.add_0_r.
    + replace (k + S i)%nat with (S k + i)%nat by lia. apply Hws. lia.
  - cbn [sums]. intros v [->|Hv]%elem_of_cons; [done|by apply Hcs].
Qed.

Lemma loop_end_cons j t k d chunk chunks rest r :
  write_fault (env j) k = None ->
  called (progress_callback j) (d + Z.of_nat (length chunk)) t = Ok tt ->
  loop_end j t (S k) (d + Z.of_nat (length chunk)) chunks rest r ->
  loop_end j t k d (chunk :: chunks) rest r.
Proof.
  intros Hw Hc Hend.
  destruct Hend as [Hrest Hok|e rest' Hrest Hok|e c rest' Hrest Hok Hwf
                    |e chunks' c Hchunks Hok Hwk Hcalled].
  - replace (d + Z.of_nat (length chunk) + size_of chunks)
      with (d + size_of (chunk :: chunks)) by (rewrite size_of_cons; lia).
    apply loop_done; [done|by apply reported_ok_cons].
  - eapply loop_read; [done|by apply reported_ok_cons].
  - eapply loop_write; [done|by apply reported_ok_cons|].
    cbn [length]. by replace (k + S (length chunks))%nat
                    with (S k + length chunks)%nat by lia.
  - subst chunks.
    eapply (loop_progress _ _ _ _ _ _ _ (chunk :: chunks') c);
      [done|by apply reported_ok_cons| |].
    + cbn [length]. by replace (k + S (length chunks'))%nat
                      with (S k + length chunks')%nat by lia.
    + rewrite <- Hcalled. f_equal.
      change (chunk :: chunks' ++ [c])%list with (chunk :: (chunks' ++ [c]))%list.
      rewrite size_of_cons. lia.
Qed.

Section Stream.

Variable j : job.
Variable t : Z.

(** What a run of the loop leaves: it has written the first chunks of
    the items and reported each of them once, and it has ended as
    [loop_end] says. *)
Lemma stream_run items : forall k d p content,
  files p !! output_path j = Some content ->
  exists chunks rest,
    items = ((Data <$> chunks) ++ rest)%list
    /\ snd (stream j t items k d p)
       = with_out (progress_calls (progress_callback j) t d chunks)
           (with_files
              (<[output_path j := (content ++ concat chunks)%list]> (files p)) p)
    /\ loop_end j t k d chunks rest (fst (stream j t items k d p)).
Proof.
  induction items as [|[chunk|e] items IH]; intros k d p content Hfile.
  - exists [], []. split; [done|]. cbn. split.
    + rewrite app_nil_r, insert_id, with_files_id by done.
      destruct (progress_callback j); cbn; by rewrite with_out_nil.
    + replace d with (d + size_of []) at 2 by (unfold size_of; cbn; lia).
      apply loop_done; [done|apply reported_ok_nil].
  - cbn [stream]. destruct (write_fault (env j) k) as [e|] eqn:Hw.
    + exists [], (Data chunk :: items). split; [done|].
      rewrite (bind_raise _ _ _ e p) by by apply file_write_raise.
      cbn. split.
      * rewrite app_nil_r, insert_id, with_files_id by done.
        destruct (progress_callback j); cbn; by rewrite with_out_nil.
      * eapply loop_write; [done|apply reported_ok_nil|].
        cbn. by rewrite Nat.add_0_r.
    + erewrite bind_ok by by apply file_write_ok.
      set (p1 := with_files _ p).
      set (d' := d + Z.of_nat (length chunk)).
      assert (files p1 !! output_path j = Some (content ++ chunk)%list)
        as Hfile1 by (cbn; by rewrite lookup_insert_eq).
      destruct (called (progress_callback j) d' t) as [[]|e] eqn:Hc.
      * erewrite bind_ok by (rewrite call_run, Hc; reflexivity).
        destruct (IH (S k) d'
                     (with_out (match progress_callback j with
                                | Some _ => [Progress d' t]
                                | None => []
                                end) p1)
                     (content ++ chunk)%list Hfile1)
          as (chunks & rest & -> & Hst & Hend).
        exists (chunk :: chunks), rest. split; [done|]. split.
        -- rewrite Hst. subst p1. unfold with_out, with_files. cbn.
           rewrite insert_insert_eq, <- !app_assoc.
           destruct (progress_callback j); cbn; by rewrite ?app_nil_r.
        -- apply loop_end_cons; [exact Hw|exact Hc|exact Hend].
      * erewrite bind_raise by (rewrite call_run, Hc; reflexivity).
        exists [chunk], items. split; [done|]. cbn [fst snd]. split.
        -- subst p1. unfold with_out, with_files. cbn. rewrite app_nil_r.
           destruct (progress_callback j); [done|]. by cbn in Hc.
        -- eapply (loop_progress _ _ _ _ _ _ _ [] chunk);
             [done|apply reported_ok_nil|cbn; by rewrite Nat.add_0_r|].
           rewrite <- Hc. f_equal. subst d'. rewrite size_of_cons.
           unfold size_of. cbn. lia.
  - exists [], (Fault e :: items). split; [done|]. cbn. split.
    + rewrite app_nil_r, insert_id, with_files_id by done.
      destruct (progress_callback j); cbn; by rewrite with_out_nil.
    + eapply loop_read; [done|apply reported_ok_nil].
Qed.

End Stream.

(** ** The statements under [try:] *)

Lemma data_of_chunks chunks : data_of (Data <$> chunks) = concat chunks.
Proof. induction chunks as [|c chunks IH]; [done|]. cbn. by rewrite IH. Qed.

Lemma no_fault_chunks chunks rest :
  existsb is_fault ((Data <$> chunks) ++ rest) = existsb is_fault rest.
Proof. by induction chunks as [|c chunks IH]. Qed.

Lemma leave_raise {A} f e : exists e', @leave A f (Raise e) = Raise e'.
Proof. destruct f as [e0|]; by eexists. Qed.

Lemma closed_raise j e : exists e', closed j (Raise e) = Raise e'.
Proof.
  unfold closed.
  destruct (leave_raise (A := unit) (release_fault (env j)) e) as [e1 ->].
  apply leave_raise.
Qed.

(** The statements before the loop fail and leave the process as it
    was, or they leave the destination as an empty file. *)
Lemma prepare_run j r p :
  (exists e, prepare j r p = (Raise e, p)
             /\ (raise_for_status r <> Ok tt
                 \/ (exists e', content_length r = Raise e')
                 \/ makedirs_fault (env j) <> None
                 \/ open_fault (env j) <> None))
  \/ (exists t, prepare j r p
                = (Ok t, with_files (<[output_path j := []]> (files p)) p)
                /\ raise_for_status r = Ok tt
                /\ content_length r = Ok t
                /\ makedirs_fault (env j) = None
                /\ open_fault (env j) = None).
Proof.
  unfold prepare, bind, lift, fault, open_wb, bind, fault, modify, ret, raise_.
  destruct (raise_for_status r) as [[]|e]; [|left; exists e; split; [done|by left]].
  destruct (content_length r) as [t|e];
    [|left; exists e; split; [done|right; left; by exists e]].
  destruct (makedirs_fault (env j)) as [e|];
    [left; exists e; split; [done|right; right; by left]|].
  destruct (open_fault (env j)) as [e|];
    [left; exists e; split; [done|right; right; by right]|].
  right. by exists t.
Qed.

(** The statements under [try:], block by block. *)
Lemma body_unfold j p :
  download_body j p
  = match get_result (env j) with
    | Raise e => (leave (session_close_fault (env j)) (Raise e), p)
    | Ok r =>
        match prepare j r p with
        | (Raise e, p1) => (closed j (Raise e), p1)
        | (Ok t, p1) =>
            match stream j t (iter_chunked (content r)) 0 0 p1 with
            | (loop, p2) =>
                match leave (close_fault (env j)) loop with
                | Raise e => (closed j (Raise e), p2)
                | Ok d =>
                    (closed j (called (completion_callback j) d t),
                     with_out (completion_calls (completion_callback j) d t) p2)
                end
            end
        end
    end.
Proof.
  unfold download_body, leaving, closed. unfold bind at 1, lift.
  destruct (get_result (env j)) as [r|e]; [|done].
  unfold bind at 1. destruct (prepare j r p) as [[t|e] p1]; [|done].
  unfold bind at 1.
  destruct (stream j t (iter_chunked (content r)) 0 0 p1) as [loop p2].
  destruct (leave (close_fault (env j)) loop) as [d|e]; [|done].
  rewrite call_run. by destruct (completion_callback j).
Qed.

(** What the statements under [try:] leave. *)
Lemma body_run j p :
  exists calls fs',
    snd (download_body j p) = with_out calls (with_files fs' p)
    /\ ((calls = [] /\ fs' = files p /\ not_opened j
         /\ exists e, fst (download_body j p) = Raise e)
        \/ exists r t chunks rest loop,
            opened j r t chunks rest loop
            /\ fs' = <[output_path j := concat chunks]> (files p)
            /\ match leave (close_fault (env j)) loop with
               | Raise e =>
                   calls = progress_calls (progress_callback j) t 0 chunks
                   /\ fst (download_body j p) = closed j (Raise e)
               | Ok d =>
                   calls = (progress_calls (progress_callback j) t 0 chunks
                            ++ completion_calls (completion_callback j) d t)%list
                   /\ fst (download_body j p)
                      = closed j (called (completion_callback j) d t)
               end).
Proof.
  rewrite body_unfold.
  destruct (get_result (env j)) as [r|e] eqn:Hget.
  2:{ exists [], (files p). cbn. rewrite with_files_id, with_out_nil.
      split; [done|]. left. repeat split; try done.
      - left. by exists e.
      - apply leave_raise. }
  destruct (prepare_run j r p)
    as [(e & -> & Hwhy)|(t & -> & Hstatus & Ht & Hmk & Hop)].
  { exists [], (files p). cbn [fst snd]. rewrite with_files_id, with_out_nil.
    split; [done|]. left. repeat split; try done.
    - right. by exists r.
    - apply closed_raise. }
  set (p1 := with_files _ p).
  assert (files p1 !! output_path j = Some []) as Hfile
      by (cbn; by rewrite lookup_insert_eq).
  destruct (stream_run j t (iter_chunked (content r)) 0%nat 0 p1 [] Hfile)
    as (chunks & rest & Hitems & Hst & Hend).
  destruct (stream j t (iter_chunked (content r)) 0 0 p1) as [loop p2].
  cbn [fst snd] in Hst, Hend. subst p2.
  assert (with_files
            (<[output_path j := ([] ++ concat chunks)%list]> (files p1)) p1
          = with_files (<[output_path j := concat chunks]> (files p)) p)
    as -> by (subst p1; unfold with_files; cbn; by rewrite insert_insert_eq).
  destruct (leave (close_fault (env j)) loop) as [d|e] eqn:Hclose.
  - cbn [fst snd]. rewrite with_out_app.
    eexists _, _. split; [reflexivity|]. right.
    exists r, t, chunks, rest, loop. split; [done|]. split; [done|].
    by rewrite Hclose.
  - cbn [fst snd].
    eexists _, _. split; [reflexivity|]. right.
    exists r, t, chunks, rest, loop. split; [done|]. split; [done|].
    by rewrite Hclose.
Qed.

(** [download_file] is its body, then the except clause, then the
    [finally] clause. *)
Lemma download_file_unfold task j p :
  download_file task j p = finish task j (download_body j p).
Proof.
  unfold download_file, try_finally, try_except, finish, discard, modify,
    discarded, emit, bind, modify, with_out.
  destruct (download_body j p) as [[[]|e] p']; cbn; [done|].
  by destruct (is_Exception e).
Qed.

Lemma new_events_out p p' evs :
  out p' = (out p ++ evs)%list -> new_events p p' = evs.
Proof. intros H. unfold new_events. by rewrite H, drop_app_length. Qed.

(** The events of a run: the calls of the body, and the report of the
    exception that the except clause has caught. *)
Lemma download_file_events task j p calls fs' :
  snd (download_body j p) = with_out calls (with_files fs' p) ->
  new_events p (snd (download_file task j p))
  = (calls ++ match fst (download_body j p) with
              | Raise e => if is_Exception e
                           then [Print (error_message j e)] else []
              | Ok _ => []
              end)%list
  /\ files (snd (download_file task j p)) = fs'
  /\ tasks (snd (download_file task j p)) = tasks p
  /\ next_task (snd (download_file task j p)) = next_task p
  /\ _instance (snd (download_file task j p))
     = (fun s => s ∖ {[task]}) <$> _instance p.
Proof.
  intros Hst. rewrite download_file_unfold.
  destruct (download_body j p) as [[[]|e] p']; cbn [fst snd] in *; subst p'.
  - rewrite app_nil_r. split; [by apply new_events_out|by repeat split].
  - unfold finish. destruct (is_Exception e).
    + split; [|by repeat split]. apply new_events_out. cbn. by rewrite app_assoc.
    + rewrite app_nil_r. split; [by apply new_events_out|by repeat split].
Qed.

Lemma download_file_result task j p :
  fst (download_file task j p)
  = match fst (download_body j p) with
    | Raise e => if is_Exception e then Ok tt else Raise e
    | Ok _ => Ok tt
    end.
Proof.
  rewrite download_file_unfold.
  destruct (download_body j p) as [[[]|e] p']; cbn; [done|].
  by destruct (is_Exception e).
Qed.

Lemma values_of_calls cb cb' t d chunks d' t' :
  progress_values (progress_calls cb t d chunks ++ completion_calls cb' d' t')
  = match cb with Some _ => sums d chunks | None => [] end.
Proof.
  unfold progress_values at 1. rewrite omap_app.
  fold (progress_values (progress_calls cb t d chunks)).
  rewrite progress_values_calls.
  destruct cb'; cbn; by rewrite app_nil_r.
Qed.

Lemma completions_of_calls cb cb' t d chunks d' t' :
  completions (progress_calls cb t d chunks ++ completion_calls cb' d' t')
  = match cb' with Some _ => [(d', t')] | None => [] end.
Proof.
  unfold completions. rewrite omap_app, progress_calls_only by done.
  by destruct cb'.
Qed.

Lemma printed_of_calls cb cb' t d chunks d' t' :
  printed (progress_calls cb t d chunks ++ completion_calls cb' d' t') = [].
Proof.
  unfold printed. rewrite omap_app, progress_calls_only by done.
  by destruct cb'.
Qed.

Lemma totals_of_calls cb cb' t d chunks d' :
  Forall (eq t) (totals (progress_calls cb t d chunks
                         ++ completion_calls cb' d' t)).
Proof.
  unfold totals. rewrite omap_app. apply Forall_app. split.
  - apply totals_calls.
  - destruct cb'; cbn; repeat constructor.
Qed.

Lemma leave_ok {A} f (outcome : res A) a :
  leave f outcome = Ok a -> f = None /\ outcome = Ok a.
Proof. by destruct f. Qed.

Lemma closed_ok j pending :
  closed j pending = Ok tt ->
  pending = Ok tt
  /\ release_fault (env j) = None /\ session_close_fault (env j) = None.
Proof.
  unfold closed. intros [Hs [Hr Hp]%leave_ok]%leave_ok. by destruct pending as [[]|].
Qed.

Lemma loop_end_ok j t k d chunks rest d' :
  loop_end j t k d chunks rest (Ok d') ->
  rest = [] /\ d' = d + size_of chunks /\ reported_ok j t k d chunks.
Proof. by inversion 1. Qed.

(** The statements under [try:] return: the destination was opened,
    the loop has written and reported all the chunks of the body, the
    file was closed, the completion callback has returned, and the
    blocks were left without an exception. *)
Lemma body_returns j p :
  fst (download_body j p) = Ok tt ->
  exists r t chunks,
    opened j r t chunks [] (Ok (size_of chunks))
    /\ snd (download_body j p)
       = with_out (progress_calls (progress_callback j) t 0 chunks
                   ++ completion_calls (completion_callback j)
                                       (size_of chunks) t)
           (with_files (<[output_path j := concat chunks]> (files p)) p)
    /\ close_fault (env j) = None
    /\ called (completion_callback j) (size_of chunks) t = Ok tt
    /\ release_fault (env j) = None
    /\ session_close_fault (env j) = None.
Proof.
  intros Hret.
  destruct (body_run j p) as (calls & fs' & Hst & [(_ & _ & _ & e & He)|Hopen]).
  { congruence. }
  destruct Hopen as (r & t & chunks & rest & loop & Hopened & -> & Hcase).
  destruct (leave (close_fault (env j)) loop) as [d|e] eqn:Hclose.
  2:{ destruct Hcase as [_ Hfst]. destruct (closed_raise j e) as [e' He'].
      congruence. }
  destruct Hcase as [-> Hfst].
  apply leave_ok in Hclose as [Hclose ->].
  rewrite Hret in Hfst. symmetry in Hfst.
  apply closed_ok in Hfst as (Hcalled & Hrel & Hsc).
  destruct Hopened as (Hget & Hstatus & Ht & Hmk & Hop & Hitems & Hend).
  apply loop_end_ok in Hend as (-> & Hd & Hok).
  rewrite Z.add_0_l in Hd. subst d.
  exists r, t, chunks. repeat split; try done.
  rewrite <- (Z.add_0_l (size_of chunks)). by apply loop_done.
Qed.

Lemma body_of_quiet_run task j p :
  completes_without_error
    (fst (download_file task j p))
    (new_events p (snd (download_file task j p))) ->
  fst (download_body j p) = Ok tt.
Proof.
  intros [Hret Hsilent].
  destruct (body_run j p) as (calls & fs' & Hst & _).
  destruct (download_file_events task j p calls fs' Hst) as (Hevs & _).
  rewrite Hevs in Hsilent. rewrite download_file_result in Hret.
  destruct (fst (download_body j p)) as [[]|e]; [done|].
  destruct (is_Exception e); [|done].
  unfold printed in Hsilent. rewrite omap_app in Hsilent.
  by apply app_eq_nil in Hsilent as [_ ?].
Qed.

Lemma chunks_nonempty r chunks :
  iter_chunked (content r) = Data <$> chunks ->
  Forall (fun chunk => chunk <> []) chunks.
Proof.
  intros Hitems. pose proof (iter_chunked_nonempty (content r)) as Hne.
  rewrite Hitems in Hne. clear Hitems.
  induction chunks as [|c chunks IH]; [constructor|].
  cbn in Hne. apply Forall_cons in Hne as [Hc Hne].
  constructor; [|by apply IH]. intros ->. by apply Hc.
Qed.

(** ** C1 *)

(** C1. In a run that completes without error the progress callback,
    when one is given, is called once for each chunk of the body, with
    the number of bytes written so far, and then the completion
    callback, when one is given, is called once; these are all the
    events of the run.  So the values handed to the progress callback
    rise strictly, and the last of them is the number of bytes in the
    destination file, which holds the bytes of the body; the completion
    callback is called with that number of bytes and the total read from
    the header, so with two equal numbers whenever the total is the
    length of the body. *)
Theorem progress_then_one_completion (task : nat) (j : job) (p : proc) :
  let run := download_file task j p in
  let evs := new_events p (snd run) in
  completes_without_error (fst run) evs ->
  StronglySorted Z.lt (progress_values evs)
  /\ exists bytes r t,
      files (snd run) !! output_path j = Some bytes
      /\ get_result (env j) = Ok r
      /\ bytes = body_bytes r
      /\ content_length r = Ok t
      /\ (forall d, last (progress_values evs) = Some d ->
                    d = Z.of_nat (length bytes))
      /\ (forall f, completion_callback j = Some f ->
                    completions evs = [(Z.of_nat (length bytes), t)]
                    /\ (t = Z.of_nat (length (body_bytes r)) ->
                        completions evs = [(t, t)]))
      /\ exists chunks,
          iter_chunked (content r) = Data <$> chunks
          /\ evs = (progress_calls (progress_callback j) t 0 chunks
                    ++ completion_calls (completion_callback j)
                                        (Z.of_nat (length bytes)) t)%list
          /\ (forall f, progress_callback j = Some f ->
                        progress_values evs = sums 0 chunks
                        /\ (bytes <> [] ->
                            last (progress_values evs)
                            = Some (Z.of_nat (length bytes)))).
Proof.
  intros run evs Hquiet. subst run evs.
  pose proof (body_of_quiet_run task j p Hquiet) as Hret.
  destruct (body_returns j p Hret)
    as (r & t & chunks & Hopened & Hst & _).
  destruct (download_file_events task j p _ _ Hst) as (Hevs & Hfiles & _).
  rewrite Hevs, Hret, app_nil_r, Hfiles. clear Hevs Hfiles.
  destruct Hopened as (Hget & Hstatus & Ht & Hmk & Hop & Hitems & Hend).
  rewrite app_nil_r in Hitems.
  pose proof (chunks_nonempty r chunks Hitems) as Hne.
  assert (body_bytes r = concat chunks) as Hbytes
      by (unfold body_bytes; by rewrite Hitems, data_of_chunks).
  assert (forall cb, match cb : callback with
                     | Some _ => sums 0 chunks
                     | None => []
                     end = [] \/ cb <> None /\ chunks <> []) as Hcases.
  { intros [f|]; [|by left]. destruct chunks; [by left|by right]. }
  split.
  { rewrite values_of_calls. destruct (progress_callback j); [|constructor].
    pose proof (sums_sorted 0 chunks Hne) as Hs.
    by apply StronglySorted_inv in Hs as [? _]. }
  exists (concat chunks), r, t. rewrite lookup_insert_eq.
  split; [done|]. split; [done|]. split; [done|]. split; [done|].
  fold (size_of chunks). split; [|split].
  - intros d. rewrite values_of_calls.
    destruct (progress_callback j); [|done].
    destruct chunks as [|c chunks]; [done|].
    rewrite sums_last by done. intros [= <-]. unfold size_of. lia.
  - intros f Hf. rewrite completions_of_calls, Hf. split; [done|].
    rewrite Hbytes. fold (size_of chunks). by intros ->.
  - exists chunks. split; [done|]. split; [done|].
    intros f Hf. rewrite values_of_calls, Hf. split; [done|].
    intros Hcontent. destruct chunks as [|c chunks]; [done|].
    rewrite sums_last by done. f_equal; lia.
Qed.

Lemma progress_then_one_completion_witness :
  StronglySorted Z.lt
    (progress_values
       (new_events (start ∅) (snd (download_file 0 good_job (start ∅))))).
Proof.
  exact (proj1 (progress_then_one_completion
                  0%nat good_job (start ∅) (conj eq_refl eq_refl))).
Defined.

(** ** C10 *)

(** C10, as stated, fails when the exception is raised by the completion
    callback: the run ends in an error, which is caught and reported, and
    the completion callback has been called once. *)
Lemma completion_callback_may_raise :
  let run := download_file 0 broken_completion_job (start ∅) in
  let evs := new_events (start ∅) (snd run) in
  ends_in_error (fst run) evs
  /\ completions evs = [(5, 5)]
  /\ ~ (forall task j p,
           ends_in_error (fst (download_file task j p))
                         (new_events p (snd (download_file task j p))) ->
           completions (new_events p (snd (download_file task j p))) = []).
Proof.
  assert (ends_in_error
            (fst (download_file 0 broken_completion_job (start ∅)))
            (new_events (start ∅)
                        (snd (download_file 0 broken_completion_job (start ∅)))))
    as Herr by (right; discriminate).
  split; [exact Herr|]. split; [reflexivity|].
  intros H. specialize (H 0%nat broken_completion_job (start ∅) Herr).
  discriminate H.
Qed.

(** C10, amended. A run that ends in an error ends with an exception of
    the statements under [try:].  Its events are the calls of the
    callbacks and then, when the exception is caught, its report, and
    nothing else.  Either the destination was not opened, and no
    callback was called; or the loop has written some chunks from the
    head of the body, and the progress callback, when one is given, was
    called once for each of them and for nothing else: each chunk that
    was reported had been read and written without an exception, every
    call but the last had returned, and a call that raises is the last.
    The completion callback is not called unless the loop has come to
    the end of the body and the file was closed without an exception;
    it is then called once, and the exception of the run is its own, or
    that of releasing the response or of closing the session after it. *)
Theorem no_callback_after_error (task : nat) (j : job) (p : proc) :
  let run := download_file task j p in
  let evs := new_events p (snd run) in
  ends_in_error (fst run) evs ->
  exists e calls,
    fst (download_body j p) = Raise e
    /\ evs = (calls
              ++ if is_Exception e then [Print (error_message j e)] else [])%list
    /\ ((calls = [] /\ files (snd run) = files p /\ not_opened j)
        \/ exists r t chunks rest loop,
            opened j r t chunks rest loop
            /\ files (snd run) !! output_path j = Some (concat chunks)
            /\ ((calls = progress_calls (progress_callback j) t 0 chunks
                 /\ completions calls = []
                 /\ exists e', leave (close_fault (env j)) loop = Raise e')
                \/ (calls = (progress_calls (progress_callback j) t 0 chunks
                             ++ completion_calls (completion_callback j)
                                                 (size_of chunks) t)%list
                    /\ rest = []
                    /\ loop = Ok (size_of chunks)
                    /\ close_fault (env j) = None
                    /\ closed j (called (completion_callback j)
                                        (size_of chunks) t) = Raise e
                    /\ (called (completion_callback j) (size_of chunks) t
                        = Raise e
                        \/ release_fault (env j) <> None
                        \/ session_close_fault (env j) <> None)))).
Proof.
  intros run evs Herr. subst run evs.
  destruct (body_run j p) as (calls & fs' & Hst & Hcases).
  destruct (download_file_events task j p calls fs' Hst) as (Hevs & Hfiles & _).
  rewrite Hevs, Hfiles in *. rewrite download_file_result in Herr.
  assert (exists e, fst (download_body j p) = Raise e) as [e He].
  { destruct (fst (download_body j p)) as [[]|e] eqn:Hbody; [|by exists e].
    rewrite app_nil_r in Herr. destruct Herr as [?|Hp]; [done|].
    destruct Hcases as [(_ & _ & _ & e & ?)|Hopen]; [done|].
    destruct Hopen as (r & t & chunks & rest & loop & _ & _ & Hcase).
    destruct (leave (close_fault (env j)) loop) as [d|e].
    - destruct Hcase as [-> _]. by rewrite printed_of_calls in Hp.
    - destruct Hcase as [-> _].
      rewrite <- (app_nil_r (progress_calls _ _ _ _)) in Hp.
      by rewrite (printed_of_calls _ None _ _ _ 0 0) in Hp. }
  rewrite He. exists e, calls. split; [done|]. split; [done|].
  destruct Hcases as [(-> & -> & Hnot & _)|Hopen]; [by left|]. right.
  destruct Hopen as (r & t & chunks & rest & loop & Hopened & -> & Hcase).
  exists r, t, chunks, rest, loop. split; [done|].
  split; [by rewrite lookup_insert_eq|].
  destruct (leave (close_fault (env j)) loop) as [d|e0] eqn:Hclose.
  - right. destruct Hcase as [-> Hfst].
    apply leave_ok in Hclose as [Hclose ->].
    destruct Hopened as (_ & _ & _ & _ & _ & _ & Hend).
    apply loop_end_ok in Hend as (-> & Hd & _).
    rewrite Z.add_0_l in Hd. subst d.
    rewrite He in Hfst. repeat split; try done.
    revert Hfst. unfold closed.
    destruct (session_close_fault (env j)) as [e1|]; [intros _; by right; right|].
    destruct (release_fault (env j)) as [e1|]; [intros _; by right; left|].
    cbn. intros <-. by left.
  - left. destruct Hcase as [-> _]. split; [done|]. split; [|by exists e0].
    rewrite <- (app_nil_r (progress_calls _ _ _ _)).
    by rewrite (completions_of_calls _ None _ _ _ 0 0).
Qed.

Lemma no_callback_after_error_witness :
  exists e calls,
    fst (download_body lost_job (start ∅)) = Raise e
    /\ new_events (start ∅) (snd (download_file 0 lost_job (start ∅)))
       = (calls
          ++ if is_Exception e then [Print (error_message lost_job e)]
             else [])%list
    /\ progress_values calls = [2]
    /\ completions calls = [].
Proof.
  destruct (no_callback_after_error 0%nat lost_job (start ∅))
    as (e & calls & He & Hevs & _).
  { right. discriminate. }
  exists e, calls. split; [exact He|]. split; [exact Hevs|].
  assert (e = ClientError "Connection lost") as -> by (vm_compute in He; congruence).
  vm_compute in Hevs.
  assert (calls = [Progress 2 0]) as ->.
  { destruct calls as [|c1 [|c2 calls]]; cbn in Hevs; try congruence.
    destruct calls; cbn in Hevs; congruence. }
  split; reflexivity.
Defined.

(** ** The event loop *)

Lemma same_coordinator_refl p : same_coordinator p p.
Proof. done. Qed.

Lemma same_coordinator_trans p1 p2 p3 :
  same_coordinator p1 p2 -> same_coordinator p2 p3 -> same_coordinator p1 p3.
Proof. intros (? & ? & ?) (? & ? & ?). repeat split; congruence. Qed.

Lemma keeps_bind {A B} (m : M proc A) (k : A -> M proc B) :
  keeps m -> (forall a, keeps (k a)) -> keeps (bind m k).
Proof.
  intros Hm Hk p. unfold bind. specialize (Hm p).
  destruct (m p) as [[a|e] p1]; [|done].
  eapply same_coordinator_trans; [exact Hm|apply Hk].
Qed.

Lemma keeps_ret {A} (a : A) : keeps (ret a).
Proof. done. Qed.

Lemma keeps_raise {A} e : keeps (@raise_ proc A e).
Proof. done. Qed.

Lemma keeps_lift {A} (r : res A) : keeps (lift r).
Proof. done. Qed.

Lemma keeps_fault f : keeps (fault f).
Proof. by destruct f. Qed.

Lemma keeps_emit ev : keeps (emit ev).
Proof. done. Qed.

Lemma keeps_open_wb w path : keeps (open_wb w path).
Proof. apply keeps_bind; [apply keeps_fault|done]. Qed.

Lemma keeps_file_write w path k chunk : keeps (file_write w path k chunk).
Proof. apply keeps_bind; [apply keeps_fault|done]. Qed.

Lemma keeps_call cb ev d t : keeps (call cb ev d t).
Proof.
  destruct cb as [f|]; [|done].
  apply keeps_bind; [apply keeps_emit|intros _; apply keeps_fault].
Qed.

Create HintDb keeps.
#[local] Hint Resolve keeps_ret keeps_raise keeps_lift keeps_fault keeps_emit
  keeps_open_wb keeps_file_write keeps_call : keeps.

Lemma keeps_prepare j r : keeps (prepare j r).
Proof.
  unfold prepare. repeat (apply keeps_bind; [auto with keeps|intros ?]).
  auto with keeps.
Qed.

Lemma keeps_connect thrown j : keeps (connect thrown j).
Proof.
  intros p. unfold connect.
  destruct (awaited thrown (get_result (env j))) as [r|e]; [|done].
  pose proof (keeps_prepare j r p) as Hp.
  by destruct (prepare j r p) as [[t|e] p'].
Qed.

Lemma keeps_turn thrown j t items k d : keeps (turn thrown j t items k d).
Proof.
  intros p. unfold turn.
  destruct (awaited thrown _) as [[[chunk items']|]|e]; [| |done].
  - match goal with
    | |- context [bind ?m ?f p] =>
        assert (keeps (bind m f)) as Hk
            by (apply keeps_bind; [auto with keeps|intros ?; auto with keeps]);
        specialize (Hk p); by destruct (bind m f p) as [[[]|e] p']
    end.
  - destruct (leave (close_fault (env j)) (Ok d)) as [d'|e]; [|done].
    pose proof (keeps_call (completion_callback j) Complete d' t p) as Hc.
    by destruct (call _ _ _ _ p) as [r p'].
Qed.

Lemma keeps_segment thrown j st : keeps (segment thrown j st).
Proof.
  destruct st; cbn [segment]; auto with keeps.
  - apply keeps_bind; [apply keeps_connect|auto with keeps].
  - apply keeps_bind; [apply keeps_turn|auto with keeps].
  - apply keeps_bind; auto with keeps.
Qed.

(** What a task that is run leaves: suspended again, it has kept the
    coordinator; at the end of the statements under [try:], it is out of
    the set, and has kept the rest. *)
Lemma wake_unfold thrown task j st p :
  (st = Created -> thrown = None) ->
  wake thrown task j st p =
  match segment thrown j st p with
  | (Ok (Some st'), p') => (Ok (Some st'), p')
  | (Ok None, p') => (Ok None, discarded task p')
  | (Raise e, p') =>
      if is_Exception e
      then (Ok None, discarded task (with_out [Print (error_message j e)] p'))
      else (Raise e, discarded task p')
  end.
Proof.
  intros Hst.
  assert (wake thrown task j st p
          = match segment thrown j st p with
            | (Ok (Some st'), p') => (Ok (Some st'), p')
            | (r, p') =>
                try_finally
                  (try_except
                     (lift r)
                     (fun e => if is_Exception e
                               then Some (emit (Print (error_message j e)) ;;; ret None)
                               else None))
                  (discard task) p'
            end) as ->.
  { destruct st; try done. by rewrite Hst. }
  destruct (segment thrown j st p) as [[[st'|]|e] p']; try done.
  unfold try_finally, try_except, lift. by destruct (is_Exception e).
Qed.

Lemma resume_unfold task j st p :
  resume task j st p =
  match segment None j st p with
  | (Ok (Some st'), p') => (Ok (Some st'), p')
  | (Ok None, p') => (Ok None, discarded task p')
  | (Raise e, p') =>
      if is_Exception e
      then (Ok None, discarded task (with_out [Print (error_message j e)] p'))
      else (Raise e, discarded task p')
  end.
Proof. by apply wake_unfold. Qed.

Lemma wake_coordinator thrown task j st p :
  let run := wake thrown task j st p in
  tasks (snd run) = tasks p
  /\ next_task (snd run) = next_task p
  /\ _instance (snd run)
     = match fst run, st, thrown with
       | Ok (Some _), _, _ => _instance p
       | _, Created, Some _ => _instance p
       | _, _, _ => (fun s => s ∖ {[task]}) <$> _instance p
       end.
Proof.
  cbn zeta.
  assert ((st = Created /\ exists e, thrown = Some e)
          \/ (st = Created -> thrown = None)) as [(-> & e & ->)|Hst].
  { destruct st; try (right; discriminate).
    destruct thrown as [e|]; [left; eauto|by right]. }
  { done. }
  rewrite wake_unfold by done.
  destruct (keeps_segment thrown j st p) as (Hi & Ht & Hn).
  destruct (segment thrown j st p) as [[[st'|]|e] p'] eqn:Hseg; cbn [fst snd] in *.
  - done.
  - cbn. rewrite Hi. split; [done|]. split; [done|].
    destruct st; try done; by rewrite Hst.
  - destruct (is_Exception e); cbn; rewrite Hi; (split; [done|]);
      (split; [done|]); destruct st; try done; by rewrite Hst.
Qed.

Lemma resume_coordinator task j st p :
  let run := resume task j st p in
  tasks (snd run) = tasks p
  /\ next_task (snd run) = next_task p
  /\ _instance (snd run)
     = match fst run with
       | Ok (Some _) => _instance p
       | _ => (fun s => s ∖ {[task]}) <$> _instance p
       end.
Proof.
  cbn zeta. destruct (wake_coordinator None task j st p) as (Ht & Hn & Hi).
  fold (resume task j st p) in *. rewrite Hi. split; [done|]. split; [done|].
  destruct (fst (resume task j st p)) as [[?|]|?]; by destruct st.
Qed.

(** A task that has come to its end has left what [finish] says. *)
Lemma runs_to_finish task j st p (r : res unit) p' :
  match r with
  | Ok _ => resume task j st p = (Ok None, discarded task p')
  | Raise e =>
      resume task j st p
      = if is_Exception e
        then (Ok None, discarded task (with_out [Print (error_message j e)] p'))
        else (Raise e, discarded task p')
  end ->
  runs_to task j st p (fst (finish task j (r, p'))) (snd (finish task j (r, p'))).
Proof.
  destruct r as [[]|e]; cbn [finish].
  - intros H. by apply runs_out.
  - destruct (is_Exception e); intros H; [by apply runs_out|by apply runs_raise].
Qed.

(** What is left of [download_file] in the exits of the two blocks. *)
Lemma closing_by_turns task j pending p :
  let outcome := leave (session_close_fault (env j)) pending in
  runs_to task j (Closing pending) p
          (fst (finish task j (outcome, p))) (snd (finish task j (outcome, p))).
Proof.
  cbn zeta. apply runs_to_finish. rewrite resume_unfold. cbn [segment first_of].
  unfold bind, lift, ret.
  by destruct (leave (session_close_fault (env j)) pending) as [[]|e].
Qed.

Lemma releasing_by_turns task j pending p :
  runs_to task j (Releasing pending) p
          (fst (finish task j (closed j pending, p)))
          (snd (finish task j (closed j pending, p))).
Proof.
  eapply runs_on.
  - rewrite resume_unfold. cbn [segment first_of]. reflexivity.
  - apply closing_by_turns.
Qed.

Lemma rest_of_body_unfold j t items k d p :
  rest_of_body j t items k d p
  = match stream j t items k d p with
    | (loop, p2) =>
        match leave (close_fault (env j)) loop with
        | Raise e => (closed j (Raise e), p2)
        | Ok d' =>
            match call (completion_callback j) Complete d' t p2 with
            | (outcome, p3) => (closed j outcome, p3)
            end
        end
    end.
Proof.
  unfold rest_of_body, leaving, bind.
  destruct (stream j t items k d p) as [loop p2].
  by destruct (leave (close_fault (env j)) loop).
Qed.

(** What is left of [download_file] at an await of the [async for]. *)
Lemma rest_of_task_by_turns task j t items : forall k d p,
  runs_to task j (Reading t items k d) p
          (fst (finish task j (rest_of_body j t items k d p)))
          (snd (finish task j (rest_of_body j t items k d p))).
Proof.
  induction items as [|[chunk|e] items IH]; intros k d p;
    rewrite rest_of_body_unfold; cbn [stream].
  - unfold ret.
    destruct (leave (close_fault (env j)) (Ok d)) as [d'|e] eqn:Hclose.
    + destruct (call (completion_callback j) Complete d' t p)
        as [outcome p3] eqn:Hcall.
      eapply runs_on; [|apply releasing_by_turns].
      rewrite resume_unfold. cbn [segment]. unfold bind, turn, ret.
      cbn [awaited]. by rewrite Hclose, Hcall.
    + eapply runs_on; [|apply releasing_by_turns].
      rewrite resume_unfold. cbn [segment]. unfold bind, turn, ret.
      cbn [awaited]. by rewrite Hclose.
  - set (d1 := d + Z.of_nat (length chunk)).
    destruct ((file_write (env j) (output_path j) k chunk ;;;
               call (progress_callback j) Progress d1 t) p)
      as [[[]|e] p1] eqn:Hstep.
    + assert (stream j t (Data chunk :: items) k d p
              = stream j t items (S k) d1 p1) as Hs.
      { cbn [stream]. fold d1. revert Hstep. unfold bind.
        destruct (file_write _ _ _ _ p) as [[[]|?] ?]; [|done].
        destruct (call _ _ _ _ _) as [[[]|?] ?]; [|done].
        by intros [= <-]. }
      cbn [stream] in Hs. fold d1 in Hs. rewrite Hs.
      eapply runs_on.
      * rewrite resume_unfold. cbn [segment]. unfold bind at 1, turn, ret.
        cbn [awaited]. fold d1. by rewrite Hstep.
      * specialize (IH (S k) d1 p1). by rewrite rest_of_body_unfold in IH.
    + assert (stream j t (Data chunk :: items) k d p = (Raise e, p1)) as Hs.
      { cbn [stream]. fold d1. revert Hstep. unfold bind.
        destruct (file_write _ _ _ _ p) as [[[]|?] ?]; [|by intros [= <- <-]].
        destruct (call _ _ _ _ _) as [[[]|?] ?]; [done|by intros [= <- <-]]. }
      cbn [stream] in Hs. fold d1 in Hs. rewrite Hs.
      destruct (leave_raise (A := Z) (close_fault (env j)) e) as [e' He'].
      rewrite He'.
      eapply runs_on; [|apply releasing_by_turns].
      rewrite resume_unfold. cbn [segment]. unfold bind at 1, turn, ret.
      cbn [awaited]. fold d1. rewrite Hstep.
      destruct (close_fault (env j)); cbn in *; congruence.
  - unfold raise_.
    destruct (leave_raise (A := Z) (close_fault (env j)) e) as [e' He'].
    rewrite He'.
    eapply runs_on; [|apply releasing_by_turns].
    rewrite resume_unfold. cbn [segment]. unfold bind, turn, ret.
    cbn [awaited].
    destruct (close_fault (env j)); cbn in *; congruence.
Qed.

(** A task that is resumed whenever it is suspended comes to its end, and
    leaves what [download_file] leaves: the coroutine cut at its awaits
    is the function. *)
Lemma download_file_by_turns task j p :
  runs_to task j Connecting p
          (fst (download_file task j p)) (snd (download_file task j p)).
Proof.
  rewrite download_file_unfold, body_unfold.
  destruct (get_result (env j)) as [r|e] eqn:Hget.
  - destruct (prepare j r p) as [[t|e] p1] eqn:Hprep.
    + eapply runs_on.
      * rewrite resume_unfold. cbn [segment]. unfold bind, connect, ret.
        cbn [awaited]. by rewrite Hget, Hprep.
      * pose proof (rest_of_task_by_turns task j t (iter_chunked (content r))
                                          0%nat 0 p1) as H.
        rewrite rest_of_body_unfold in H.
        destruct (stream j t (iter_chunked (content r)) 0 0 p1) as [loop p2].
        destruct (leave (close_fault (env j)) loop) as [d|e]; [|exact H].
        by rewrite call_run in H.
    + eapply runs_on; [|apply releasing_by_turns].
      rewrite resume_unfold. cbn [segment]. unfold bind, connect, ret.
      cbn [awaited]. by rewrite Hget, Hprep.
  - eapply runs_on; [|apply (closing_by_turns task j (Raise e) p)].
    rewrite resume_unfold. cbn [segment]. unfold bind, connect, ret.
    cbn [awaited]. by rewrite Hget.
Qed.

(** The end of a task is determined by where it is resumed. *)
Lemma runs_to_deterministic task j st p r1 p1 r2 p2 :
  runs_to task j st p r1 p1 -> runs_to task j st p r2 p2 ->
  r1 = r2 /\ p1 = p2.
Proof.
  intros H1. revert r2 p2.
  induction H1 as [st p st' q r p' Hres _ IH|st p p' Hres|st p e p' Hres];
    intros r2 p2 H2; inversion H2; subst; try congruence.
  - apply IH. congruence.
  - split; congruence.
  - split; congruence.
Qed.

Lemma download_tasks_resumed task j st p :
  _download_tasks (snd (resume task j st p))
  = match fst (resume task j st p) with
    | Ok (Some _) => _download_tasks p
    | _ => _download_tasks p ∖ {[task]}
    end.
Proof.
  destruct (resume_coordinator task j st p) as (_ & _ & Hi).
  unfold _download_tasks. rewrite Hi.
  destruct (fst (resume task j st p)) as [[?|]|?]; [done| |];
    destruct (_instance p); cbn; set_solver.
Qed.

(** A step of the task [task] leaves the other tasks as they are, in the
    loop and in the set. *)
Lemma resume_leaves_others task p p' :
  step (Resume task) p = Some p' ->
  forall t, t <> task ->
            tasks p' !! t = tasks p !! t
            /\ (t ∈ _download_tasks p' <-> t ∈ _download_tasks p).
Proof.
  cbn. destruct (tasks p !! task) as [c|]; [|done]. cbn.
  pose proof (download_tasks_resumed task (args c) (suspended c) p) as Hset.
  destruct (resume_coordinator task (args c) (suspended c) p) as (Ht & _ & _).
  destruct (resume task (args c) (suspended c) p) as [r p1].
  cbn [fst snd] in *.
  assert (forall f, _download_tasks (set_tasks f p1) = _download_tasks p1)
    as Hsame by done.
  destruct r as [[st|]|e]; intros [= <-] t Hne; cbn [settle];
    rewrite Hsame, Hset; cbn;
    rewrite Ht, ?lookup_insert_ne, ?lookup_delete_ne by done;
    (split; [done|set_solver]).
Qed.

(** ** C3 *)

Lemma download_tasks_discarded task j p :
  _download_tasks (snd (download_file task j p)) = _download_tasks p ∖ {[task]}.
Proof.
  destruct (body_run j p) as (calls & fs' & Hst & _).
  destruct (download_file_events task j p calls fs' Hst) as (_ & _ & _ & _ & Hi).
  unfold _download_tasks. rewrite Hi.
  destruct (_instance p); cbn; set_solver.
Qed.

(** C3. No exception of class [Exception] leaves [download_file]: when
    the body raises one, wherever it does, the call returns, and the
    failure is reported by a printed line, the last event of the run.
    The run changes nothing of the coordinator but to take its own task
    out of the set; and whatever a step of a task does, the other tasks
    of the loop stay as they are, in the loop and in the set. *)
Theorem errors_stay_in_the_task (task : nat) (j : job) (p : proc) :
  let run := download_file task j p in
  (forall e, fst run = Raise e -> is_Exception e = false)
  /\ (forall e, fst (download_body j p) = Raise e -> is_Exception e = true ->
                fst run = Ok tt
                /\ exists before,
                    new_events p (snd run)
                    = (before ++ [Print (error_message j e)])%list)
  /\ _download_tasks (snd run) = _download_tasks p ∖ {[task]}
  /\ tasks (snd run) = tasks p
  /\ runs_to task j Connecting p (fst run) (snd run)
  /\ (forall p', step (Resume task) p = Some p' ->
                 forall t, t <> task ->
                           tasks p' !! t = tasks p !! t
                           /\ (t ∈ _download_tasks p' <-> t ∈ _download_tasks p)).
Proof.
  intros run. subst run.
  pose proof (download_tasks_discarded task j p) as Hset.
  destruct (body_run j p) as (calls & fs' & Hst & _).
  destruct (download_file_events task j p calls fs' Hst)
    as (Hevs & _ & Htasks & _).
  pose proof (download_file_result task j p) as Hfst.
  split; [|split; [|split; [done|split; [done|split]]]].
  - intros e. rewrite Hfst.
    destruct (fst (download_body j p)) as [[]|e']; [done|].
    destruct (is_Exception e') eqn:He'; [done|]. by intros [= <-].
  - intros e He Hexc. rewrite Hfst, Hevs, He, Hexc. split; [done|by exists calls].
  - apply download_file_by_turns.
  - apply resume_leaves_others.
Qed.

Lemma errors_stay_in_the_task_witness :
  fst (download_file 0 refused_job (start ∅)) = Ok tt
  /\ exists before,
      new_events (start ∅) (snd (download_file 0 refused_job (start ∅)))
      = (before
         ++ [Print (error_message refused_job
                                  (ClientError "Cannot connect to host"))])%list.
Proof.
  exact (proj1 (proj2 (errors_stay_in_the_task 0%nat refused_job (start ∅)))
               (ClientError "Cannot connect to host") eq_refl eq_refl).
Defined.

(** The five kinds of failure of the specification, each on a sample
    download: the call returns, and what is seen of the failure is the
    printed line. *)
Example every_site_is_caught :
  Forall (fun je : job * exn =>
            fst (download_file 0 (fst je) (start ∅)) = Ok tt
            /\ printed (new_events (start ∅)
                                   (snd (download_file 0 (fst je) (start ∅))))
               = [error_message (fst je) (snd je)])
         [(refused_job, ClientError "Cannot connect to host");
          (rejected_job, ClientResponseError 404);
          (no_directory_job, OSError "Permission denied");
          (disk_full_job, OSError "No space left on device");
          (lost_job, ClientError "Connection lost")].
Proof.
  repeat (apply Forall_cons; split; [split; vm_compute; reflexivity|]).
  constructor.
Qed.

(** A failure that comes late: the disk is full when the file is
    closed.  Both chunks were reported, the completion callback is not
    called, and the error is caught and printed like the others. *)
Example late_failure_is_caught :
  let run := download_file 0 late_disk_full_job (start ∅) in
  let evs := new_events (start ∅) (snd run) in
  fst run = Ok tt
  /\ progress_values evs = [2; 5]
  /\ completions evs = []
  /\ printed evs
     = [error_message late_disk_full_job (OSError "No space left on device")].
Proof. repeat split; vm_compute; reflexivity. Qed.

(** A cancellation is not caught, wherever it comes: while the task
    waits for the response, or while it closes the session after the
    completion callback has returned.  The [CancelledError] leaves
    [download_file], nothing is printed, and the task is out of the
    set. *)
Example cancellation_is_not_caught :
  Forall (fun jc : job * list (Z * Z) =>
            let run := download_file 0 (fst jc)
                                     (start_download (fst jc) (new (start ∅))) in
            let evs := new_events (start ∅) (snd run) in
            fst run = Raise CancelledError
            /\ printed evs = []
            /\ completions evs = snd jc
            /\ _download_tasks (snd run) = ∅)
         [(cancelled_job, []); (cancelled_closing_job, [(5, 5)])].
Proof.
  repeat (apply Forall_cons; split;
          [repeat split; vm_compute; reflexivity|]).
  constructor.
Qed.

(** ** C8 *)

(** When nothing fails, the statements under [try:] return. *)
Lemma body_succeeds j p r t :
  get_result (env j) = Ok r ->
  content_length r = Ok t ->
  nothing_else_fails j r ->
  fst (download_body j p) = Ok tt.
Proof.
  intros Hget Ht (Hstatus & Hmk & Hop & Hw & Hitems & Hpcb & Hccb
                  & Hclose & Hrel & Hsc).
  assert (forall cb d t', returns cb -> called cb d t' = Ok tt) as Hcalled.
  { intros [f|] d t' Hcb; [|done]. cbn. by rewrite (Hcb f d t' eq_refl). }
  destruct (body_run j p) as (calls & fs' & _ & [(_ & _ & Hnot & _)|Hopen]).
  { destruct Hnot as [[e He]|(r' & Hget' & Hwhy)]; [congruence|].
    assert (r' = r) as -> by congruence.
    destruct Hwhy as [?|[[e He]|[?|?]]]; congruence. }
  destruct Hopen as (r' & t' & chunks & rest & loop & Hopened & _ & Hcase).
  destruct Hopened as (Hget' & _ & Ht' & _ & _ & Hchunks & Hend).
  assert (r' = r) as -> by congruence.
  assert (t' = t) as -> by congruence.
  rewrite Hchunks, no_fault_chunks in Hitems.
  assert (exists d, loop = Ok d) as [d ->].
  { destruct Hend as [?|e rest' ->|e c rest' _ _ Hwf|e chunks' c _ _ _ Hc];
      [by eexists|done| |].
    - by rewrite Hw in Hwf.
    - by rewrite Hcalled in Hc. }
  rewrite Hclose in Hcase. cbn in Hcase. destruct Hcase as [_ ->].
  unfold closed. by rewrite Hsc, Hrel, Hcalled.
Qed.

(** C8, as stated, fails for a header that is no number.  Such an
    answer does not come as far as [int]: aiohttp refuses it, the GET
    raises, the exception is caught as any other, and the download is
    abandoned before the destination file is opened. *)
Lemma unparsable_content_length_is_an_error :
  let run := download_file 0 misannounced_job (start ∅) in
  let evs := new_events (start ∅) (snd run) in
  arrives (env misannounced_job) = Ok (served [("Content-Length", "abc")])
  /\ nothing_else_fails misannounced_job (served [("Content-Length", "abc")])
  /\ headers_get "Content-Length" [("Content-Length", "abc")] = Some "abc"
  /\ int_of_str "abc"
     = Raise (ValueError "invalid literal for int() with base 10: 'abc'")
  /\ get_result (env misannounced_job) = Raise (ClientResponseError 400)
  /\ evs = [Print (error_message misannounced_job (ClientResponseError 400))]
  /\ ~ completes_without_error (fst run) evs
  /\ totals evs = []
  /\ files (snd run) !! output_path misannounced_job = None
  /\ ~ (forall task j p r v e,
           arrives (env j) = Ok r ->
           headers_get "Content-Length" (headers r) = Some v ->
           int_of_str v = Raise e ->
           nothing_else_fails j r ->
           completes_without_error
             (fst (download_file task j p))
             (new_events p (snd (download_file task j p)))).
Proof.
  assert (nothing_else_fails misannounced_job
                             (served [("Content-Length", "abc")])) as Hcalm.
  { unfold nothing_else_fails, returns.
    repeat split; try done; by intros ? ? ? [= <-]. }
  split; [reflexivity|]. split; [exact Hcalm|].
  split; [reflexivity|]. split; [reflexivity|].
  split; [reflexivity|]. split; [reflexivity|].
  split; [by intros [_ ?]|]. split; [reflexivity|]. split; [reflexivity|].
  intros H.
  destruct (H 0%nat misannounced_job (start ∅) _ _ _
              eq_refl eq_refl eq_refl Hcalm) as [_ ?].
  done.
Qed.

(** C8, amended. When the answer has no Content-Length header the
    response is delivered and the total is 0: every call of a callback
    carries 0, and when nothing else fails the run completes without
    error, the destination holds the body and the completion callback
    is called with the length of the body and 0.  When the header is
    there and is no number that aiohttp takes, the GET raises and the
    exception is caught as any other: the call returns, the error is
    reported, no callback is called and no file is written. *)
Theorem absent_content_length (task : nat) (j : job) (p : proc)
        (r : response) :
  let run := download_file task j p in
  let evs := new_events p (snd run) in
  arrives (env j) = Ok r ->
  (headers_get "Content-Length" (headers r) = None ->
   get_result (env j) = Ok r
   /\ content_length r = Ok 0%Z
   /\ Forall (eq 0%Z) (totals evs)
   /\ (nothing_else_fails j r ->
       completes_without_error (fst run) evs
       /\ files (snd run) !! output_path j = Some (body_bytes r)
       /\ forall f, completion_callback j = Some f ->
                    completions evs
                    = [(Z.of_nat (length (body_bytes r)), 0%Z)]))
  /\ (forall v, headers_get "Content-Length" (headers r) = Some v ->
                acceptable v = false ->
                session_close_fault (env j) = None ->
                get_result (env j) = Raise (ClientResponseError 400)
                /\ fst run = Ok tt
                /\ evs = [Print (error_message j (ClientResponseError 400))]
                /\ files (snd run) = files p).
Proof.
  intros run evs Harr. subst run evs. split.
  - intros Habsent.
    assert (get_result (env j) = Ok r) as Hget
        by (unfold get_result; by rewrite Harr, Habsent).
    assert (content_length r = Ok 0%Z) as Ht
        by (unfold content_length; by rewrite Habsent).
    split; [done|]. split; [done|].
    destruct (body_run j p) as (calls & fs' & Hst & Hcases).
    destruct (download_file_events task j p calls fs' Hst) as (Hevs & Hfiles & _).
    split.
    + rewrite Hevs. unfold totals. rewrite omap_app. apply Forall_app. split.
      * destruct Hcases as [(-> & _)|Hopen]; [constructor|].
        destruct Hopen as (r' & t & chunks & rest & loop & Hopened & _ & Hcase).
        destruct Hopened as (Hget' & _ & Ht' & _).
        assert (r' = r) as -> by congruence.
        assert (t = 0) as -> by congruence.
        destruct (leave (close_fault (env j)) loop) as [d|e];
          destruct Hcase as [-> _]; [apply totals_of_calls|apply totals_calls].
      * destruct (fst (download_body j p)) as [[]|e]; [constructor|].
        destruct (is_Exception e); constructor.
    + intros Hcalm.
      pose proof (body_succeeds j p r 0 Hget Ht Hcalm) as Hret.
      destruct (body_returns j p Hret)
        as (r' & t & chunks & Hopened & Hst' & _).
      destruct Hopened as (Hget' & _ & Ht' & _ & _ & Hitems & _).
      assert (r' = r) as -> by congruence.
      assert (t = 0) as -> by congruence.
      rewrite app_nil_r in Hitems.
      assert (body_bytes r = concat chunks) as Hbytes
          by (unfold body_bytes; by rewrite Hitems, data_of_chunks).
      destruct (download_file_events task j p _ _ Hst') as (Hevs' & Hfiles' & _).
      rewrite Hevs', Hfiles', Hret, app_nil_r, download_file_result, Hret.
      split; [split; [done|apply printed_of_calls]|].
      split; [by rewrite lookup_insert_eq, Hbytes|].
      intros f Hf. by rewrite completions_of_calls, Hf, Hbytes.
  - intros v Hv Hacc Hsc.
    assert (get_result (env j) = Raise (ClientResponseError 400)) as Hget
        by (unfold get_result; by rewrite Harr, Hv, Hacc).
    assert (download_body j p = (Raise (ClientResponseError 400), p)) as Hbody
        by (by rewrite body_unfold, Hget, Hsc).
    rewrite download_file_unfold, Hbody. cbn [finish is_Exception fst snd].
    split; [done|]. split; [done|]. split; [|done].
    by apply new_events_out.
Qed.

Lemma absent_content_length_witness :
  (Forall (eq 0%Z)
          (totals (new_events (start ∅)
                              (snd (download_file 0 unannounced_job (start ∅)))))
   /\ completes_without_error
        (fst (download_file 0 unannounced_job (start ∅)))
        (new_events (start ∅) (snd (download_file 0 unannounced_job (start ∅)))))
  /\ new_events (start ∅) (snd (download_file 0 misannounced_job (start ∅)))
     = [Print (error_message misannounced_job (ClientResponseError 400))].
Proof.
  split.
  - destruct (proj1 (absent_content_length 0%nat unannounced_job (start ∅)
                                           (served []) eq_refl)
                    eq_refl) as (_ & _ & Htotals & Hcalm).
    split; [exact Htotals|]. apply Hcalm.
    unfold nothing_else_fails, returns.
    repeat split; try done; by intros ? ? ? [= <-].
  - exact (proj1 (proj2 (proj2
             (proj2 (absent_content_length
                       0%nat misannounced_job (start ∅)
                       (served [("Content-Length", "abc")]) eq_refl)
                    "abc" eq_refl eq_refl eq_refl)))).
Defined.

(** ** C2 *)

Lemma download_tasks_started j p :
  _download_tasks (start_download j (new p)) = _download_tasks p ∪ {[next_task p]}.
Proof.
  unfold new, _download_tasks.
  destruct (_instance p) eqn:Hi; cbn; rewrite ?Hi; cbn; set_solver.
Qed.

Lemma started_tasks j p :
  tasks (start_download j (new p))
  = <[next_task p := {| args := j; suspended := Created |}]> (tasks p)
  /\ next_task (start_download j (new p)) = S (next_task p)
  /\ out (start_download j (new p)) = out p
  /\ files (start_download j (new p)) = files p.
Proof. unfold new. by destruct (_instance p). Qed.

(** A task that is run, resumed or cancelled, takes no task but itself
    out of the set and puts none in. *)
Lemma download_tasks_woken thrown task j st p :
  _download_tasks p ∖ {[task]} ⊆ _download_tasks (snd (wake thrown task j st p))
  /\ _download_tasks (snd (wake thrown task j st p)) ⊆ _download_tasks p.
Proof.
  destruct (wake_coordinator thrown task j st p) as (_ & _ & Hi).
  unfold _download_tasks. rewrite Hi.
  destruct (fst (wake thrown task j st p)) as [[?|]|?], st, thrown,
    (_instance p); cbn; set_solver.
Qed.

Lemma settled_tasks task c r :
  _download_tasks (settle task c r) = _download_tasks (snd r)
  /\ next_task (settle task c r) = next_task (snd r)
  /\ forall t, t <> task -> tasks (settle task c r) !! t = tasks (snd r) !! t.
Proof.
  destruct r as [[[st|]|e] p']; cbn; repeat split; try done; intros t Hne;
    by rewrite ?lookup_insert_ne, ?lookup_delete_ne.
Qed.

Lemma settled_dom task c r :
  dom (tasks (settle task c r)) ⊆ dom (tasks (snd r)) ∪ {[task]}.
Proof.
  destruct r as [[[st|]|e] p']; cbn; rewrite ?dom_insert_L, ?dom_delete_L;
    set_solver.
Qed.

Lemma named_start disk : named (start disk).
Proof. intros t. cbn. set_solver. Qed.

Lemma named_woken thrown task c p :
  tasks p !! task = Some c ->
  named p ->
  named (settle task c (wake thrown task (args c) (suspended c) p)).
Proof.
  intros Hc Hp t.
  destruct (settled_tasks task c (wake thrown task (args c) (suspended c) p))
    as (-> & -> & _).
  pose proof (settled_dom task c (wake thrown task (args c) (suspended c) p))
    as Hdom.
  destruct (wake_coordinator thrown task (args c) (suspended c) p)
    as (Ht & -> & _).
  destruct (download_tasks_woken thrown task (args c) (suspended c) p)
    as [_ Hsub].
  rewrite Ht in Hdom.
  assert (task ∈ dom (tasks p)) by (apply elem_of_dom; by eexists).
  intros Hin. apply Hp. set_solver.
Qed.

Lemma named_step a p p' : named p -> step a p = Some p' -> named p'.
Proof.
  intros Hp. destruct a as [j|task|task]; cbn.
  - intros [= <-] t.
    destruct (started_tasks j p) as (-> & -> & _).
    rewrite download_tasks_started, dom_insert_L.
    intros Hin.
    assert (t = next_task p \/ t ∈ dom (tasks p) ∪ _download_tasks p)
      as [->|Hin'] by set_solver; [lia|].
    specialize (Hp t Hin'). lia.
  - destruct (tasks p !! task) as [c|] eqn:Hc; [|done]. cbn.
    intros [= <-]. by apply named_woken.
  - destruct (tasks p !! task) as [c|] eqn:Hc; [|done]. cbn.
    intros [= <-]. by apply named_woken.
Qed.

Lemma named_run acts : forall p p', named p -> run acts p = Some p' -> named p'.
Proof.
  induction acts as [|a acts IH]; intros p p' Hp; cbn.
  - by intros [= <-].
  - destruct (step a p) as [p1|] eqn:Hstep; [|done]. cbn.
    apply IH. by eapply named_step.
Qed.

Lemma left_behind_woken t thrown task c p :
  tasks p !! task = Some c ->
  left_behind t p ->
  left_behind t (settle task c (wake thrown task (args c) (suspended c) p)).
Proof.
  intros Hc [Hin Hnone].
  assert (t <> task) as Hne by congruence.
  destruct (settled_tasks task c (wake thrown task (args c) (suspended c) p))
    as (Hset & _ & Hother).
  destruct (wake_coordinator thrown task (args c) (suspended c) p)
    as (Ht & _ & _).
  destruct (download_tasks_woken thrown task (args c) (suspended c) p)
    as [Hsup _].
  split.
  - rewrite Hset. set_solver.
  - by rewrite Hother, Ht.
Qed.

Lemma left_behind_step t a p p' :
  named p -> left_behind t p -> step a p = Some p' -> left_behind t p'.
Proof.
  intros Hp [Hin Hnone]. destruct a as [j|task|task]; cbn.
  - intros [= <-].
    destruct (started_tasks j p) as (Ht & _).
    split.
    + rewrite download_tasks_started. set_solver.
    + rewrite Ht, lookup_insert_ne; [done|].
      assert (t < next_task p)%nat by (apply Hp; set_solver). lia.
  - destruct (tasks p !! task) as [c|] eqn:Hc; [|done]. cbn.
    intros [= <-]. by apply left_behind_woken.
  - destruct (tasks p !! task) as [c|] eqn:Hc; [|done]. cbn.
    intros [= <-]. by apply left_behind_woken.
Qed.

Lemma left_behind_run t acts : forall p p',
  named p -> left_behind t p -> run acts p = Some p' -> left_behind t p'.
Proof.
  induction acts as [|a acts IH]; intros p p' Hp Ht; cbn.
  - by intros [= <-].
  - destruct (step a p) as [p1|] eqn:Hstep; [|done]. cbn.
    apply IH; [by eapply named_step|by eapply left_behind_step].
Qed.

(** C2 does not hold of the code.  A task that is cancelled before the
    loop has run it for the first time ends without having executed a
    statement of [download_file]: its [finally] clause does not run.
    The task is over, nothing of it was seen, and the set holds it; no
    later step of any task takes it out, so the count does not come
    back to 0. *)
Theorem cancelled_before_first_step_stays_tracked
        (disk : gmap string (list Byte.byte)) (acts : list action)
        (p : proc) (j : job) :
  run acts (start disk) = Some p ->
  let t := next_task p in
  exists p',
    run [StartDownload j; Cancel t] p = Some p'
    /\ (t ∉ _download_tasks p)
    /\ tasks p' = tasks p
    /\ _download_tasks p' = _download_tasks p ∪ {[t]}
    /\ out p' = out p
    /\ files p' = files p
    /\ forall more p'',
        run more p' = Some p'' ->
        t ∈ _download_tasks p''
        /\ tasks p'' !! t = None
        /\ active_downloads p'' <> 0%nat.
Proof.
  intros Hrun t.
  pose proof (named_run acts _ _ (named_start disk) Hrun) as Hp.
  assert (t ∉ dom (tasks p) ∪ _download_tasks p) as Hfresh.
  { intros Hin. specialize (Hp t Hin). subst t. lia. }
  assert (tasks p !! t = None) as Hnone
      by (apply not_elem_of_dom; set_solver).
  destruct (started_tasks j p) as (Ht & Hn & Hout & Hfiles).
  set (p1 := start_download j (new p)) in *.
  assert (step (Cancel t) p1
          = Some (set_tasks (delete t) p1)) as Hcancel.
  { unfold step. rewrite Ht. subst t. by rewrite lookup_insert_eq. }
  exists (set_tasks (delete t) p1).
  assert (tasks (set_tasks (delete t) p1) = tasks p) as Htasks.
  { unfold set_tasks. cbn [tasks]. rewrite Ht. subst t.
    by rewrite delete_insert_eq, delete_id. }
  assert (_download_tasks (set_tasks (delete t) p1)
          = _download_tasks p ∪ {[t]}) as Hset.
  { change (_download_tasks (set_tasks (delete t) p1))
      with (_download_tasks p1).
    subst p1 t. apply download_tasks_started. }
  split.
  { change (run [StartDownload j; Cancel t] p)
      with (step (Cancel t) p1 ≫= run []).
    by rewrite Hcancel. }
  split; [set_solver|]. split; [done|]. split; [done|].
  split; [done|]. split; [done|].
  intros more p'' Hmore.
  assert (named (set_tasks (delete t) p1)) as Hnamed.
  { eapply named_step; [|exact Hcancel].
    eapply (named_step (StartDownload j)); [exact Hp|done]. }
  assert (left_behind t (set_tasks (delete t) p1)) as Hleft.
  { split; [rewrite Hset; set_solver|by rewrite Htasks]. }
  destruct (left_behind_run t more _ _ Hnamed Hleft Hmore) as [Hin Hgone].
  split; [done|]. split; [done|].
  unfold active_downloads. intros Hzero%size_empty_inv. set_solver.
Qed.

Lemma cancelled_before_first_step_stays_tracked_witness :
  exists p p',
    run sample_acts (start ∅) = Some p
    /\ run [StartDownload good_job; Cancel (next_task p)] p = Some p'
    /\ tasks p' = tasks p
    /\ _download_tasks p' = _download_tasks p ∪ {[next_task p]}.
Proof.
  assert (exists p, run sample_acts (start ∅) = Some p) as [p Hrun]
      by (eexists; vm_compute; reflexivity).
  destruct (cancelled_before_first_step_stays_tracked
              ∅ sample_acts p good_job Hrun)
    as (p' & Hrun' & _ & Htasks & Hset & _).
  by exists p, p'.
Defined.

End DownloadProps.

(** * Properties of the search screen *)

Module ScreenProps.
Import SearchScreen Samples.

(** What the loop of [populate_extensions] leaves, for results whose
    names are widget ids: the dict binds a name to the last result of
    that name, the container shows the first. *)
Lemma populate_run results : forall s,
  forallb (fun e => identifier (name e)) results = true ->
  fst (populate_extensions results s) = Ok tt
  /\ extensions (snd (populate_extensions results s))
     = foldl (fun m e => <[name e := e]> m) (extensions s) results
  /\ container (snd (populate_extensions results s))
     = foldl (fun c e =>
                if existsb (fun w => String.eqb (fst w) (name e)) c then c
                else (c ++ [(name e, e)])%list)
             (container s) results.
Proof.
  induction results as [|e results IH]; intros s; cbn [forallb populate_extensions foldl].
  - done.
  - intros [He Hrest]%andb_prop.
    unfold bind, remember, modify, try_except, mount. cbn. rewrite He. cbn.
    destruct (existsb _ (container s)) eqn:Hd; cbn.
    all: match goal with |- context [populate_extensions _ ?s'] => specialize (IH s' Hrest) end.
    all: cbn in IH; rewrite ?Hd in IH; exact IH.
Qed.

(** ** C9 *)

(** C9 does not hold of the code.  Of two results with one name the
    container shows the first (the widget of the second is refused for
    its id), and the dict, written before the widget is mounted, keeps the
    second; the download button of the widget shown hands the second
    record to the download. *)
Theorem duplicate_name_hands_over_last :
  let run := populate_extensions [first_hit; second_hit] (pushed ∅) in
  fst run = Ok tt
  /\ container (snd run) = [("python", first_hit)]
  /\ on_button_pressed (button_id first_hit) (snd run) = Ok (Some second_hit)
  /\ second_hit <> first_hit.
Proof. repeat split; try (vm_compute; reflexivity). discriminate. Qed.

End ScreenProps.

(** * More on the search client *)

Module SearchMore.
Import VsixApiHandler Shape Fields Samples SearchProps.

Lemma res_bind_raise {A B} (r : res A) (k : A -> res B) e :
  res_bind r k = Raise e ->
  r = Raise e \/ exists a, r = Ok a /\ k a = Raise e.
Proof.
  destruct r as [a|e']; cbn; intros H; [right; exists a; by split|left; congruence].
Qed.

Lemma subscript_raises j k e :
  subscript j k = Raise e -> e = KeyError \/ e = TypeError.
Proof.
  destruct j; cbn; try (intros [= <-]; by right).
  destruct (assoc k fields); [done|]. intros [= <-]. by left.
Qed.

Lemma subscript_object j k v : subscript j k = Ok v -> exists fields, j = JObj fields.
Proof. destruct j; try done. by eexists. Qed.

Lemma subscript0_raises j e : subscript0 j = Raise e -> entry_error e.
Proof.
  unfold entry_error.
  destruct j as [| | |[|? ?]|[|? ?]|]; cbn; try done; intros [= <-]; auto.
Qed.

Lemma first_source_raises files e :
  first_source files = Raise e -> e = KeyError \/ e = TypeError.
Proof.
  induction files as [|file files IH]; cbn [first_source]; [done|].
  intros [H|(a & Ha & H)]%res_bind_raise; [by eapply subscript_raises|].
  destruct (eq_str a VSIX_PACKAGE); [by eapply subscript_raises|by apply IH].
Qed.

Lemma Extension_init_raises a b c d e0 f g h e :
  Extension_init a b c d e0 f g h = Raise e -> e = ValidationError.
Proof.
  unfold Extension_init, validate_str, validate_optional_str.
  repeat (intros [H|(? & _ & H)]%res_bind_raise;
          [by repeat case_match; simplify_eq|revert H]).
  done.
Qed.

Lemma parse_extension_raises ext e :
  parse_extension ext = Raise e -> entry_error e.
Proof.
  unfold parse_extension, entry_error.
  intros [H|(p & Hp & H)]%res_bind_raise;
    [apply subscript_raises in H; tauto|].
  destruct (subscript_object _ _ _ Hp) as [fields ->].
  apply res_bind_raise in H as [H|(pn & Hpn & H)];
    [apply subscript_raises in H; tauto|].
  destruct (subscript_object _ _ _ Hpn) as [pf ->].
  rewrite Hp in H. cbn [res_bind get] in H.
  apply res_bind_raise in H as [H|(en & _ & H)];
    [apply subscript_raises in H; tauto|].
  apply res_bind_raise in H as [H|(vs & _ & H)];
    [apply subscript_raises in H; tauto|].
  apply res_bind_raise in H as [H|(v0 & _ & H)];
    [by apply subscript0_raises in H|].
  apply res_bind_raise in H as [H|(ver & _ & H)];
    [apply subscript_raises in H; tauto|].
  apply res_bind_raise in H as [H|(fs & _ & H)];
    [apply subscript_raises in H; tauto|].
  apply res_bind_raise in H as [H|(files & _ & H)].
  { destruct fs; cbn in H; simplify_eq; tauto. }
  apply res_bind_raise in H as [H|(url & _ & H)];
    [apply first_source_raises in H; tauto|].
  apply Extension_init_raises in H. tauto.
Qed.

Lemma parse_loop_raises results : forall acc e,
  parse_loop acc results = Raise e -> entry_error e.
Proof.
  induction results as [|ext results IH]; intros acc e; cbn [parse_loop]; [done|].
  intros [H|(x & _ & H)]%res_bind_raise;
    [by eapply parse_extension_raises|by eapply IH].
Qed.

(** X1. [_parse_results] ends with a list, with the parsing error, with a
    [TypeError] or with a validation error of the model, and with
    nothing else: no [KeyError], no [IndexError] and no [AttributeError]
    leaves it. *)
Theorem parse_results_raises (data : json) (e : exn) :
  _parse_results data = Raise e -> parse_error e.
Proof.
  unfold _parse_results, parse_error.
  destruct (res_bind _ _) as [l|e'] eqn:H; [done|].
  assert (entry_error e') as He'.
  { apply res_bind_raise in H as [H|(? & _ & H)];
      [apply subscript_raises in H; unfold entry_error; tauto|].
    apply res_bind_raise in H as [H|(? & _ & H)];
      [by apply subscript0_raises in H|].
    apply res_bind_raise in H as [H|(rs & _ & H)];
      [apply subscript_raises in H; unfold entry_error; tauto|].
    apply res_bind_raise in H as [H|(? & _ & H)];
      [|by eapply parse_loop_raises].
    destruct rs; cbn in H; simplify_eq; unfold entry_error; tauto. }
  destruct He' as [->| [->| [->| ->]]]; intros [= <-]; tauto.
Qed.

Lemma parse_results_raises_witness :
  parse_error (ValueError PARSE_FAILURE).
Proof.
  exact (parse_results_raises incomplete_data (ValueError PARSE_FAILURE) eq_refl).
Defined.

(** X2. For an entry that is typed and complete the record holds the
    publisher name and the extension name of the entry, and for the
    fields read with [.get] the value of the entry, or the default of
    the code when the key is missing: the marketplace host as domain,
    "N/A" as display name, "Unknown" as date of the last update, "No
    description available." as description.  A domain or a description
    that the entry binds to [null] stays unset: the default stands for a
    missing key only. *)
Theorem record_fields_and_defaults (ext : json) :
  typed_extension ext = true ->
  complete_extension ext = true ->
  exists e pobj,
    parse_extension ext = Ok e
    /\ member "publisher" ext = Some pobj
    /\ str_field "publisherName" pobj = Some (publisher e)
    /\ domain e = optional_field "domain" "marketplace.visualstudio.com" pobj
    /\ str_field "extensionName" ext = Some (name e)
    /\ optional_field "displayName" "N/A" ext = Some (display_name e)
    /\ optional_field "lastUpdated" "Unknown" ext = Some (last_updated e)
    /\ description e
       = optional_field "shortDescription" "No description available." ext.
Proof.
  destruct ext as [| | | | |fields]; try discriminate.
  unfold typed_extension, typed_field. intros H. split_andb H.
  unfold complete_extension, parse_extension, has, optional_field, member,
    str_field, subscript, get, subscript0.
  destruct (assoc "publisher" fields) as [p|] eqn:Hp; cbn [andb res_bind]; [|done].
  destruct p as [| | | | |pf]; try (cbn in *; discriminate).
  unfold typed_publisher, typed_field in H. split_andb H.
  destruct (assoc "publisherName" pf) as [pn|] eqn:Hpn; cbn [andb res_bind]; [|done].
  destruct (assoc "extensionName" fields) as [en|] eqn:Hen; cbn [andb res_bind]; [|done].
  destruct (assoc "versions" fields) as [vs|] eqn:Hvs; cbn [andb res_bind]; [|done].
  destruct vs as [| | | |vl|]; try (cbn in *; discriminate).
  destruct vl as [|v0 vrest]; cbn [res_bind]; [done|].
  cbn [typed_versions] in *.
  destruct v0 as [| | | | |vf]; try (cbn in *; discriminate).
  unfold typed_version, typed_field in *. split_andb H0.
  unfold complete_version, has.
  destruct (assoc "version" vf) as [ver|] eqn:Hver; cbn [andb res_bind]; [|done].
  destruct (assoc "files" vf) as [fs|] eqn:Hfs; cbn [andb res_bind]; [|done].
  destruct fs as [| | | |files|]; try (cbn in *; discriminate).
  cbn [is_list_of iterate res_bind] in *.
  pose proof (first_source_typed files ltac:(done)) as Hsrc.
  destruct (complete_files files); [|done]. intros _.
  destruct Hsrc as (src & -> & Hval). cbn [res_bind].
  unfold Extension_init.
  destruct pn; try discriminate. cbn [validate_str res_bind].
  destruct en; try discriminate. cbn [validate_str res_bind].
  rewrite Hval.
  destruct (assoc "domain" pf) as [[]|] eqn:Hd; try discriminate;
    cbn [default validate_optional_str res_bind];
  destruct (assoc "lastUpdated" fields) as [[]|]; try discriminate;
    cbn [default validate_str res_bind];
  destruct (assoc "displayName" fields) as [[]|]; try discriminate;
    cbn [default validate_str res_bind];
  destruct (assoc "shortDescription" fields) as [[]|]; try discriminate;
    cbn [default validate_optional_str res_bind];
  destruct ver; try discriminate; cbn [validate_optional_str res_bind];
  eexists _, _; (split; [reflexivity|]); (split; [reflexivity|]);
  cbn; rewrite ?Hpn, ?Hd; repeat split; reflexivity.
Qed.

Lemma record_fields_and_defaults_witness :
  exists e pobj,
    parse_extension sample_extension = Ok e
    /\ member "publisher" sample_extension = Some pobj
    /\ str_field "publisherName" pobj = Some (publisher e)
    /\ domain e = optional_field "domain" "marketplace.visualstudio.com" pobj
    /\ str_field "extensionName" sample_extension = Some (name e)
    /\ optional_field "displayName" "N/A" sample_extension = Some (display_name e)
    /\ optional_field "lastUpdated" "Unknown" sample_extension
       = Some (last_updated e)
    /\ description e
       = optional_field "shortDescription" "No description available."
                        sample_extension.
Proof. exact (record_fields_and_defaults sample_extension eq_refl eq_refl). Defined.

(** X3. The files of a version after its first package file are not looked
    at: whatever they are, well formed or not, the source found is the
    same. *)
Theorem files_after_package_ignored (before : list json) (file : json)
        (after after' : list json) :
  subscript file "assetType" = Ok (JStr VSIX_PACKAGE) ->
  first_source (before ++ file :: after) = first_source (before ++ file :: after').
Proof.
  intros Hfile. induction before as [|f before IH]; cbn [app first_source].
  - by rewrite Hfile.
  - destruct (subscript f "assetType") as [a|e]; cbn [res_bind]; [|done].
    by destruct (eq_str a VSIX_PACKAGE).
Qed.

Lemma files_after_package_ignored_witness :
  first_source ([JObj [("assetType", JStr "Other"); ("source", JStr "A")]]
                ++ JObj [("assetType", JStr VSIX_PACKAGE); ("source", JStr "B")]
                :: [JNum 7])
  = first_source ([JObj [("assetType", JStr "Other"); ("source", JStr "A")]]
                  ++ JObj [("assetType", JStr VSIX_PACKAGE); ("source", JStr "B")]
                  :: []).
Proof.
  exact (files_after_package_ignored
           [JObj [("assetType", JStr "Other"); ("source", JStr "A")]]
           (JObj [("assetType", JStr VSIX_PACKAGE); ("source", JStr "B")])
           [JNum 7] [] eq_refl).
Defined.

(** X4. An exception of the transport, a timeout among them, leaves the
    search as a plain [Exception] with the message of a request error;
    the message of the except clause for timeouts is never the one
    raised, that clause coming after the clause of its base class.
    Nothing is printed. *)
Theorem request_errors_are_wrapped (w : net) (query : string)
        (by_publisher : bool) (page_size page_number : Z) (c : client)
        (e : exn) :
  post_result w = Raise e ->
  is_RequestError e = true ->
  let run := search_extensions w query by_publisher page_size page_number c in
  fst run
  = Raise (Exception_ ("An HTTP request error occurred: " +:+ exn_str e))
  /\ fst run <> Raise (Exception_ "The request timed out.")
  /\ trace (snd run)
     = (trace c
        ++ [Clear;
            Post API_URL
                 (_build_query (if by_publisher then 4 else 10)%Z query
                               page_number page_size)
                 HEADERS 10])%list.
Proof.
  intros He Hreq. cbn zeta. run_search. rewrite He. cbn.
  destruct (stop_during_post w); cbn; rewrite Hreq; cbn;
    (split; [done|split; [done|by rewrite <- app_assoc]]).
Qed.

Lemma request_errors_are_wrapped_witness :
  fst (search_extensions
         {| stop_during_post := false;
            post_result := Raise (TimeoutException "timed out") |}
         "python" false 10 1 init)
  = Raise (Exception_ "An HTTP request error occurred: timed out").
Proof.
  exact (proj1 (request_errors_are_wrapped
                  {| stop_during_post := false;
                     post_result := Raise (TimeoutException "timed out") |}
                  "python" false 10 1 init (TimeoutException "timed out")
                  eq_refl eq_refl)).
Defined.

(** X5. When the task of the search is cancelled while the request is
    pending, the [CancelledError] does not leave the search: a line is
    printed and the search returns the empty list, as it does after
    [stop]. *)
Theorem cancellation_is_swallowed (w : net) (query : string)
        (by_publisher : bool) (page_size page_number : Z) (c : client) :
  post_result w = Raise CancelledError ->
  let run := search_extensions w query by_publisher page_size page_number c in
  fst run = Ok []
  /\ _stop_event (snd run) = stop_during_post w
  /\ trace (snd run)
     = (trace c
        ++ [Clear;
            Post API_URL
                 (_build_query (if by_publisher then 4 else 10)%Z query
                               page_number page_size)
                 HEADERS 10;
            Output "Request was canceled."])%list.
Proof.
  intros He. cbn zeta. run_search. rewrite He. cbn.
  destruct (stop_during_post w); cbn; by rewrite <- !app_assoc.
Qed.

Lemma cancellation_is_swallowed_witness :
  fst (search_extensions
         {| stop_during_post := false; post_result := Raise CancelledError |}
         "python" false 10 1 init)
  = Ok [].
Proof.
  exact (proj1 (cancellation_is_swallowed
                  {| stop_during_post := false;
                     post_result := Raise CancelledError |}
                  "python" false 10 1 init eq_refl)).
Defined.

(** X6. An answer with a status outside 2xx, or a 2xx answer whose body is
    not JSON, leaves the search as the exception of the library, not
    wrapped in the message of a request error: no except clause of
    [_call_api] matches it.  Nothing is printed and nothing is parsed. *)
Theorem status_and_body_errors_pass_unwrapped (w : net) (query : string)
        (by_publisher : bool) (page_size page_number : Z) (c : client)
        (r : api_response) :
  stop_during_post w = false ->
  post_result w = Ok r ->
  httpx_raise_for_status r <> Ok tt \/ body r = None ->
  let run := search_extensions w query by_publisher page_size page_number c in
  fst run
  = (if ((200 <=? status_code r) && (status_code r <=? 299))%Z
     then Raise JSONDecodeError
     else Raise (HTTPStatusError (status_code r)))
  /\ trace (snd run)
     = (trace c
        ++ [Clear;
            Post API_URL
                 (_build_query (if by_publisher then 4 else 10)%Z query
                               page_number page_size)
                 HEADERS 10])%list.
Proof.
  intros Hstop Hr Hbad. cbn zeta. run_search. rewrite Hr, Hstop. cbn.
  unfold httpx_raise_for_status in *.
  destruct ((200 <=? status_code r) && (status_code r <=? 299))%Z; cbn.
  - destruct Hbad as [Hbad|Hbad]; [done|]. unfold response_json.
    rewrite Hbad. cbn. split; [done|by rewrite <- app_assoc].
  - split; [done|by rewrite <- app_assoc].
Qed.

Lemma status_and_body_errors_pass_unwrapped_witness :
  fst (search_extensions
         {| stop_during_post := false;
            post_result := Ok (answer 503 (JObj [])) |}
         "python" false 10 1 init)
  = Raise (HTTPStatusError 503).
Proof.
  assert (httpx_raise_for_status (answer 503 (JObj [])) <> Ok tt) as Hbad
      by discriminate.
  destruct (status_and_body_errors_pass_unwrapped
              {| stop_during_post := false;
                 post_result := Ok (answer 503 (JObj [])) |}
              "python" false 10 1 init (answer 503 (JObj []))
              eq_refl eq_refl (or_introl Hbad)) as [H _].
  exact H.
Defined.

End SearchMore.

(** * More on the download coordinator *)

Module DownloadMore.
Import DownloadManager Observed Tracking Samples DownloadProps.
Local Open Scope Z_scope.





(** X7. A download writes its destination and no other file. *)
Theorem only_the_destination_is_written (task : nat) (j : job) (p : proc)
        (path : string) :
  path <> output_path j ->
  files (snd (download_file task j p)) !! path = files p !! path.
Proof.
  intros Hne.
  destruct (body_run j p) as (calls & fs' & Hst & Hcases).
  destruct (download_file_events task j p calls fs' Hst) as (_ & -> & _).
  destruct Hcases as [(_ & -> & _)|(r & t & chunks & rest & loop & _ & -> & _)];
    [done|].
  by rewrite lookup_insert_ne.
Qed.

Lemma only_the_destination_is_written_witness :
  files (snd (download_file 0 good_job (start ∅))) !! "/etc/passwd"
  = files (start ∅) !! "/etc/passwd".
Proof.
  apply only_the_destination_is_written. discriminate.
Defined.



(** X9. An exception that is not of class [Exception], such as the
    [CancelledError] of a cancelled task, passes through [download_file]:
    the call raises it and prints nothing, and the task is taken out of
    the set all the same. *)
Theorem cancellation_passes_through (task : nat) (j : job) (p : proc)
        (e : exn) :
  fst (download_body j p) = Raise e ->
  is_Exception e = false ->
  let run := download_file task j p in
  fst run = Raise e
  /\ printed (new_events p (snd run)) = []
  /\ (task ∉ _download_tasks (snd run)).
Proof.
  intros He Hexc. cbn zeta.
  destruct (body_run j p) as (calls & fs' & Hst & Hcases).
  destruct (download_file_events task j p calls fs' Hst) as (Hevs & _).
  rewrite download_file_result, Hevs, He, Hexc, app_nil_r.
  split; [done|]. split.
  - destruct Hcases as [(-> & _)|Hopen]; [done|].
    destruct Hopen as (r & t & chunks & rest & loop & _ & _ & Hcase).
    destruct (leave (close_fault (env j)) loop) as [d|e0];
      destruct Hcase as [-> _]; [apply printed_of_calls|].
    unfold printed. by apply progress_calls_only.
  - rewrite download_tasks_discarded. set_solver.
Qed.

Lemma cancellation_passes_through_witness :
  fst (download_file 0 cancelled_job (start ∅)) = Raise CancelledError.
Proof.
  exact (proj1 (cancellation_passes_through
                  0%nat cancelled_job (start ∅) CancelledError
                  eq_refl eq_refl)).
Defined.

(** X10. A body without bytes: when the first read answers nothing and
    nothing fails, the download completes without error, the destination
    is an empty file, the progress callback is not called, and the
    completion callback, when one is given, is called once with 0 bytes
    and the total of the header. *)
Theorem empty_body (task : nat) (j : job) (p : proc) (r : response) (t : Z) :
  get_result (env j) = Ok r ->
  content_length r = Ok t ->
  nothing_else_fails j r ->
  iter_chunked (content r) = [] ->
  let run := download_file task j p in
  let evs := new_events p (snd run) in
  completes_without_error (fst run) evs
  /\ files (snd run) !! output_path j = Some []
  /\ progress_values evs = []
  /\ completions evs = match completion_callback j with
                       | Some _ => [(0, t)]
                       | None => []
                       end.
Proof.
  intros Hget Ht Hcalm Hitems. cbn zeta.
  pose proof (body_succeeds j p r t Hget Ht Hcalm) as Hret.
  destruct (body_returns j p Hret) as (r' & t' & chunks & Hopened & Hst & _).
  destruct Hopened as (Hget' & _ & Ht' & _ & _ & Hitems' & _).
  assert (r' = r) as -> by congruence.
  assert (t' = t) as -> by congruence.
  rewrite Hitems in Hitems'.
  assert (chunks = []) as -> by (by destruct chunks).
  destruct (download_file_events task j p _ _ Hst) as (Hevs & Hfiles & _).
  rewrite Hevs, Hfiles, Hret, app_nil_r, download_file_result, Hret.
  split; [split; [done|apply printed_of_calls]|].
  split; [by rewrite lookup_insert_eq|].
  rewrite values_of_calls, completions_of_calls.
  split; by destruct (progress_callback j).
Qed.

Lemma empty_body_witness :
  files (snd (download_file
                0 (sample_job
                     (calm (Ok {| status := 200; headers := []; content := [] |}))
                     quiet)
                (start ∅)))
  !! "/home/user/Downloads/python-2.0.0.vsix" = Some [].
Proof.
  refine (proj1 (proj2 (empty_body
                          0%nat
                          (sample_job
                             (calm (Ok {| status := 200; headers := [];
                                          content := [] |}))
                             quiet)
                          (start ∅)
                          {| status := 200; headers := []; content := [] |}
                          0 eq_refl eq_refl _ eq_refl))).
  unfold nothing_else_fails, returns.
  repeat split; try done; by intros ? ? ? [= <-].
Defined.

(** X11. As long as no task is cancelled before it has run for the first
    time, the set holds the tasks of the loop that have not finished and
    no other: this is so at the start, a download that is started, a
    task that is resumed and a task that is cancelled after it has begun
    keep it so, and the count is then 0 when no task is left. *)
Theorem set_is_the_unfinished_tasks (disk : gmap string (list Byte.byte)) :
  tracked (start disk)
  /\ (forall a p p',
         tracked p -> begun a p -> step a p = Some p' -> tracked p')
  /\ (forall p, tracked p -> tasks p = ∅ -> active_downloads p = 0%nat).
Proof.
  split; [done|]. split.
  - intros a p p' Hp Hbegun. unfold tracked in *.
    assert (forall thrown task c,
               tasks p !! task = Some c ->
               (suspended c = Created -> thrown = None) ->
               _download_tasks
                 (settle task c (wake thrown task (args c) (suspended c) p))
               = dom (tasks (settle task c
                                    (wake thrown task (args c) (suspended c) p))))
      as Hwoken.
    { intros thrown task c Hc Hst.
      destruct (wake_coordinator thrown task (args c) (suspended c) p)
        as (Ht & _ & Hi).
      assert (task ∈ dom (tasks p)) as Hin by (apply elem_of_dom; by eexists).
      destruct (wake thrown task (args c) (suspended c) p) as [res p1].
      cbn [fst snd] in *.
      assert (forall f, _download_tasks (set_tasks f p1) = _download_tasks p1)
        as Hsame by done.
      unfold _download_tasks in *.
      destruct res as [[st|]|e]; cbn [settle]; rewrite Hsame; cbn [tasks set_tasks];
        rewrite Ht, ?dom_insert_L, ?dom_delete_L, Hi.
      - set_solver.
      - destruct (suspended c), thrown; try (specialize (Hst eq_refl); done);
          destruct (_instance p); cbn in *; set_solver.
      - destruct (suspended c), thrown; try (specialize (Hst eq_refl); done);
          destruct (_instance p); cbn in *; set_solver. }
    destruct a as [j|task|task]; cbn.
    + intros [= <-]. destruct (started_tasks j p) as (Ht & _).
      rewrite download_tasks_started, Ht, dom_insert_L. set_solver.
    + destruct (tasks p !! task) as [c|] eqn:Hc; [|done]. cbn.
      intros [= <-]. by apply Hwoken.
    + destruct (tasks p !! task) as [c|] eqn:Hc; [|done]. cbn.
      intros [= <-]. apply Hwoken; [done|].
      intros Hcreated. by destruct (Hbegun task c eq_refl Hc).
  - intros p Hp Hnone. unfold active_downloads, tracked in *.
    rewrite Hp, Hnone, dom_empty_L. apply size_empty.
Qed.

Lemma set_is_the_unfinished_tasks_witness :
  tracked (start_download good_job (new (start ∅))).
Proof.
  apply (proj1 (proj2 (set_is_the_unfinished_tasks ∅))
               (StartDownload good_job) (start ∅)).
  - apply (proj1 (set_is_the_unfinished_tasks ∅)).
  - intros t c. discriminate.
  - reflexivity.
Defined.



End DownloadMore.

(** * More about the result list of a search *)

Module ScreenMore.
Import VsixApiHandler SearchScreen SearchWorker Shape Samples SearchProps ScreenProps.

Lemma append_cons (c : ascii) (n s : string) :
  String c n +:+ s = String c (n +:+ s).
Proof. reflexivity. Qed.

Lemma contains_suffix (n : string) :
  contains DOWNLOAD_BUTTON (n +:+ DOWNLOAD_BUTTON) = true.
Proof.
  induction n as [|c n IH]; [done|].
  rewrite append_cons. cbn [contains]. rewrite IH. by case_match.
Qed.

(** The tag [_download_button] does not overlap itself: it starts no
    later occurrence that begins inside a name without one. *)
Lemma no_overlap (n : string) :
  n <> EmptyString ->
  String.prefix DOWNLOAD_BUTTON n = false ->
  String.prefix DOWNLOAD_BUTTON (n +:+ DOWNLOAD_BUTTON) = false.
Proof.
  unfold DOWNLOAD_BUTTON. destruct n as [|c n]; [done|]. intros _.
  rewrite append_cons. cbn [String.prefix].
  destruct (ascii_dec _ c) as [<-|]; [|done].
  do 15 (destruct n as [|c n]; [done|]; rewrite append_cons;
         cbn [String.prefix];
         destruct (ascii_dec _ c) as [<-|]; [|done]).
  by destruct n.
Qed.

Lemma remove_suffix (n : string) :
  contains DOWNLOAD_BUTTON n = false ->
  remove DOWNLOAD_BUTTON 0 (n +:+ DOWNLOAD_BUTTON) = n.
Proof.
  induction n as [|c n IH]; [done|].
  cbn [contains]. destruct (String.prefix DOWNLOAD_BUTTON (String c n)) eqn:Hp; [done|].
  intros Hn. rewrite append_cons. cbn [remove]. rewrite <- append_cons.
  rewrite no_overlap by done. by rewrite IH.
Qed.

Lemma press_own_button (e : Extension) (s : screen) :
  contains DOWNLOAD_BUTTON (name e) = false ->
  on_button_pressed (button_id e) s
  = match extensions s !! name e with
    | Some e' => Ok (Some e')
    | None => Raise KeyError
    end.
Proof.
  intros Hn. unfold on_button_pressed, button_id.
  by rewrite contains_suffix, remove_suffix.
Qed.

Lemma populate_cons (e : Extension) (todo : list Extension) (s : screen) :
  populate_extensions (e :: todo) s
  = let dict := <[name e := e]> (extensions s) in
    if negb (identifier (name e)) then
      (Raise BadIdentifier,
       {| extensions := dict; container := container s;
          refused := refused s |})
    else if existsb (fun w => String.eqb (fst w) (name e)) (container s) then
      populate_extensions
        todo {| extensions := dict; container := container s;
                refused := (refused s ++ [(name e, e)])%list |}
    else
      populate_extensions
        todo {| extensions := dict;
                container := (container s ++ [(name e, e)])%list;
                refused := refused s |}.
Proof.
  cbn [populate_extensions].
  unfold bind, remember, modify, try_except, mount. cbn.
  destruct (negb (identifier (name e))); [done|].
  by destruct (existsb _ (container s)).
Qed.

Lemma consistent_mono (from from' : list Extension) (s : screen) :
  from ⊆ from' -> consistent from s -> consistent from' s.
Proof.
  intros Hsub [Hnd Hb]. split; [done|]. intros id e Hin.
  destruct (Hb id e Hin) as (Hid & He & e' & Hl & Hn & He').
  split; [done|]. split; [by apply Hsub|]. exists e'. repeat split; try done.
  by apply Hsub.
Qed.

Lemma existsb_ids (c : list (string * Extension)) (k : string) :
  existsb (fun w => String.eqb (fst w) k) c = true <-> k ∈ c.*1.
Proof.
  rewrite existsb_exists, list_elem_of_fmap. split.
  - intros (x & Hin%list_elem_of_In & Heq%String.eqb_eq). by exists x.
  - intros (x & -> & Hin). exists x.
    split; [by apply list_elem_of_In|]. apply String.eqb_refl.
Qed.

Lemma populate_consistent (todo : list Extension) :
  forall from s,
    consistent from s ->
    consistent (from ++ todo) (snd (populate_extensions todo s)).
Proof.
  induction todo as [|e todo IH]; intros from s Hs.
  - by rewrite app_nil_r.
  - assert (forall rs, consistent (from ++ [e])
                       {| extensions := <[name e := e]> (extensions s);
                          container := container s; refused := rs |}) as Hs1.
    { intros rs. destruct Hs as [Hnd Hb]. split; [done|]. intros id x Hin. cbn in *.
      destruct (Hb id x Hin) as (Hid & Hx & e' & Hl & Hn & He').
      split; [done|]. split; [set_solver|].
      destruct (decide (name e = id)) as [<-|Hne].
      - exists e. rewrite lookup_insert_eq. set_solver.
      - exists e'. rewrite lookup_insert_ne by done. set_solver. }
    rewrite populate_cons. cbn zeta.
    destruct (negb (identifier (name e))); cbn [snd].
    { eapply consistent_mono; [|apply Hs1]. set_solver. }
    destruct (existsb _ (container s)) eqn:Hd.
    + replace (from ++ e :: todo)%list with ((from ++ [e]) ++ todo)%list
        by (by rewrite <- app_assoc).
      by apply IH.
    + replace (from ++ e :: todo)%list with ((from ++ [e]) ++ todo)%list
        by (by rewrite <- app_assoc).
      apply IH. destruct (Hs1 (refused s)) as [Hnd Hb]. cbn in *. split; cbn.
      * rewrite fmap_app. apply NoDup_app. split; [done|]. cbn. split.
        -- intros k Hk ->%list_elem_of_singleton.
           apply existsb_ids in Hk. congruence.
        -- apply NoDup_singleton.
      * intros id x [Hin|Heq%list_elem_of_singleton]%elem_of_app.
        -- by apply Hb.
        -- injection Heq as -> ->. split; [done|]. split; [set_solver|].
           exists e. rewrite lookup_insert_eq. set_solver.
Qed.

(** X13. After the loop of [populate_extensions] on a screen just pushed,
    whatever the dict held and however the loop ends: the widgets shown
    have different ids, each shows one of the results under its name,
    the dict holds under that name a result of that name, and, for a
    name without [_download_button] in it, pressing the button of the
    widget hands over that result and raises nothing. *)
Theorem shown_widgets_have_working_buttons
        (search_results : list Extension) (dict : gmap string Extension) :
  let s := snd (populate_extensions search_results (pushed dict)) in
  NoDup (container s).*1
  /\ forall id e, (id, e) ∈ container s ->
       id = name e
       /\ e ∈ search_results
       /\ exists e', extensions s !! id = Some e'
                     /\ name e' = name e
                     /\ e' ∈ search_results
                     /\ (contains DOWNLOAD_BUTTON (name e) = false ->
                         on_button_pressed (button_id e) s = Ok (Some e')).
Proof.
  cbn zeta.
  destruct (populate_consistent search_results [] (pushed dict)) as [Hnd Hb].
  { split; [constructor|]. intros id e Hin. cbn in Hin. set_solver. }
  split; [done|]. intros id e Hin.
  destruct (Hb id e Hin) as (-> & He & e' & Hl & Hn & He').
  split; [done|]. split; [done|]. exists e'. repeat split; try done.
  intros Hc. by rewrite press_own_button, Hl.
Qed.

Lemma shown_widgets_have_working_buttons_witness :
  on_button_pressed
    (button_id first_hit)
    (snd (populate_extensions [first_hit; second_hit] (pushed ∅)))
  = Ok (Some second_hit).
Proof.
  destruct (shown_widgets_have_working_buttons [first_hit; second_hit] ∅)
    as [_ H].
  destruct (H "python" first_hit) as (_ & _ & e' & Hl & _ & _ & Hp).
  { vm_compute. left. }
  rewrite Hp by (vm_compute; reflexivity).
  vm_compute in Hl. by injection Hl as <-.
Defined.

(** X14. The dict belongs to the class, so it outlives a screen.  The loop
    of [populate_extensions] only adds to it and to the container,
    however it ends: a name that is not the name of a result keeps what
    the dict held for it, no key is lost, and the widgets that were
    shown stay in place at the front. *)
Theorem other_names_keep_their_records
        (search_results : list Extension) (s : screen) :
  let s' := snd (populate_extensions search_results s) in
  (forall k, k ∉ name <$> search_results ->
             extensions s' !! k = extensions s !! k)
  /\ dom (extensions s) ⊆ dom (extensions s')
  /\ container s `prefix_of` container s'.
Proof.
  revert s. induction search_results as [|e todo IH]; intros s; cbn zeta.
  - done.
  - rewrite populate_cons. cbn zeta.
    assert (forall k, k ∉ name <$> e :: todo ->
                      <[name e := e]> (extensions s) !! k = extensions s !! k)
      as Hother.
    { intros k Hk. apply lookup_insert_ne. set_solver. }
    destruct (negb (identifier (name e))); cbn [snd].
    { split; [done|]. split; [|done]. cbn. rewrite dom_insert_L. set_solver. }
    destruct (existsb _ (container s)) eqn:Hd.
    all: match goal with
         | |- context [populate_extensions _ ?s1] =>
             destruct (IH s1) as (Hk & Hdom & Hc)
         end.
    all: cbn in Hk, Hdom, Hc.
    all: split; [intros k Hin; rewrite Hk, Hother; set_solver|].
    all: split; [rewrite dom_insert_L in Hdom; set_solver|].
    + done.
    + etrans; [|exact Hc]. by apply prefix_app_r.
Qed.

Lemma other_names_keep_their_records_witness :
  extensions (snd (populate_extensions
                     [second_hit]
                     (pushed {["pylance" := first_hit]}))) !! "pylance"
  = Some first_hit.
Proof.
  rewrite (proj1 (other_names_keep_their_records
                    [second_hit] (pushed {["pylance" := first_hit]}))).
  - reflexivity.
  - cbn. intros H%list_elem_of_singleton. discriminate H.
Defined.

Lemma populate_app (before rest : list Extension) :
  forall s,
    fst (populate_extensions before s) = Ok tt ->
    populate_extensions (before ++ rest) s
    = populate_extensions rest (snd (populate_extensions before s)).
Proof.
  induction before as [|e before IH]; intros s; [done|].
  cbn [app]. rewrite !populate_cons. cbn zeta.
  destruct (negb (identifier (name e))); [done|].
  destruct (existsb _ (container s)); apply IH.
Qed.

(** X15. A result whose name is no widget id ends the loop: the names before
    it being ids, [populate_extensions] raises [BadIdentifier] when it
    reaches it; by then the dict holds the record under that name, no
    widget shows it, and the results after it are neither written to the
    dict nor shown. *)
Theorem bad_identifier_stops_the_loop
        (before after : list Extension) (e : Extension) (s : screen) :
  forallb (fun x => identifier (name x)) before = true ->
  identifier (name e) = false ->
  let mid := snd (populate_extensions before s) in
  populate_extensions (before ++ e :: after) s
  = (Raise BadIdentifier,
     {| extensions := <[name e := e]> (extensions mid);
        container := container mid;
        refused := refused mid |}).
Proof.
  intros Hb He. cbn zeta.
  destruct (populate_run before s Hb) as (Hok & _).
  rewrite populate_app by done.
  rewrite populate_cons. cbn zeta. by rewrite He.
Qed.

Lemma bad_identifier_stops_the_loop_witness :
  fst (populate_extensions
         [first_hit;
          {| publisher := "4ops"; domain := None; name := "4ops.terraform";
             display_name := "Terraform"; last_updated := "Unknown";
             description := None; version := None; download_url := None |};
          second_hit]
         (pushed ∅))
  = Raise BadIdentifier.
Proof.
  exact (f_equal fst
           (bad_identifier_stops_the_loop
              [first_hit] [second_hit]
              {| publisher := "4ops"; domain := None; name := "4ops.terraform";
                 display_name := "Terraform"; last_updated := "Unknown";
                 description := None; version := None; download_url := None |}
              (pushed ∅) eq_refl eq_refl)).
Defined.

(** X16. A search that fails is reported and then the worker breaks: when
    the query is not empty and [search_extensions] raises an exception
    of class [Exception], the user is notified once with the text of the
    exception, and the next line, [await asyncio.sleep(4)], raises
    [NameError] for the name [asyncio], which the module does not import.
    So the screen is not dismissed, the container keeps its loading
    indicator, and nothing is shown or written to the dict. *)
Theorem failed_search_ends_in_name_error
        (w : net) (v : view) (c : ascii) (q : string) (e : exn) :
  search_query v = Some (String c q) ->
  fst (search_extensions w (String c q) false 10 1 (api_handler v))
  = Raise e ->
  is_Exception e = true ->
  let run := on_mount w v in
  fst run = NameError "asyncio"
  /\ notified (snd run)
     = (notified v
          ++ ["Exception searching for extensions: " +:+ exn_str e])%list
  /\ dismissed (snd run) = dismissed v
  /\ loading (snd run) = true
  /\ shown (snd run) = shown v.
Proof.
  intros Hq Hs He. cbn zeta.
  unfold on_mount, populate_extensions_work. cbn [search_query set_loading api_handler].
  rewrite Hq.
  destruct (search_extensions w (String c q) false 10 1 (api_handler v))
    as [r c'] eqn:Hrun.
  cbn in Hs. subst r. by rewrite He.
Qed.

Lemma failed_search_ends_in_name_error_witness :
  fst (on_mount {| stop_during_post := false;
                   post_result := Ok (answer 503 (JObj [])) |}
                (SearchScreen_init ∅ (Some "python")))
  = NameError "asyncio".
Proof.
  exact (proj1 (failed_search_ends_in_name_error
                  {| stop_during_post := false;
                     post_result := Ok (answer 503 (JObj [])) |}
                  (SearchScreen_init ∅ (Some "python"))
                  "p" "ython" (HTTPStatusError 503)
                  eq_refl eq_refl eq_refl)).
Defined.

(** X17. The loading indicator and the dismissal, over every way the worker
    started by [on_mount] can end: the indicator is taken off exactly
    when the worker returns, so it stays after a failed search and after
    a name that is no widget id; and the worker never dismisses the
    screen, the one [dismiss] of [populate_extensions] being behind the
    line that raises. *)
Theorem indicator_off_iff_worker_returns (w : net) (v : view) :
  let run := on_mount w v in
  (loading (snd run) = false <-> fst run = Returned)
  /\ dismissed (snd run) = dismissed v
  /\ search_query (snd run) = search_query v.
Proof.
  cbn zeta. unfold on_mount, populate_extensions_work, mount_results.
  cbn [search_query set_loading api_handler].
  destruct (search_query v) as [[|c q]|] eqn:Hq; cbn.
  1, 3: by rewrite Hq.
  destruct (search_extensions _ _ _ _ _ _) as [[rs|e] c']; cbn.
  - destruct (populate_extensions rs (shown v)) as [[[]|e] s]; cbn;
      rewrite Hq; by repeat split.
  - destruct (is_Exception e); cbn; rewrite Hq; by repeat split.
Qed.

(** X18. A request is made exactly for a query that is not empty, and then
    it is one search by name for the first page of ten: with no query or
    an empty one the worker leaves the handler as it is, shows nothing
    and takes the indicator off. *)
Theorem request_only_for_a_query (w : net) (v : view) :
  let run := on_mount w v in
  match search_query v with
  | Some (String _ _ as q) =>
      exists tl,
        trace (api_handler (snd run))
        = (trace (api_handler v)
             ++ Clear :: Post API_URL (_build_query 10 q 1 10) HEADERS 10 :: tl)%list
        /\ posted tl = []
  | _ =>
      run = (Returned, set_loading false v)
  end.
Proof.
  cbn zeta. unfold on_mount, populate_extensions_work, mount_results.
  cbn [search_query set_loading api_handler shown].
  destruct (search_query v) as [[|c q]|] eqn:Hq; cbn.
  1, 3: by destruct v; cbn in *; subst.
  destruct (search_trace w (String c q) false 10 1 (api_handler v))
    as (tl & Htl & Hp).
  exists tl. split; [|done].
  destruct (search_extensions _ _ _ _ _ _) as [[rs|e] c']; cbn in *.
  - by destruct (populate_extensions rs (shown v)) as [[[]|e] s].
  - by destruct (is_Exception e).
Qed.

(** X19. The user goes back while the request is pending: [action_back]
    calls [stop], and when the response arrives, whatever it is, the
    worker shows no result, writes nothing to the dict, notifies nobody,
    and ends normally with the indicator off. *)
Theorem stop_during_search_shows_nothing
        (w : net) (v : view) (c : ascii) (q : string) (r : api_response) :
  search_query v = Some (String c q) ->
  stop_during_post w = true ->
  post_result w = Ok r ->
  let run := on_mount w v in
  fst run = Returned
  /\ shown (snd run) = shown v
  /\ notified (snd run) = notified v
  /\ dismissed (snd run) = dismissed v
  /\ loading (snd run) = false
  /\ _stop_event (api_handler (snd run)) = true.
Proof.
  intros Hq Hstop Hr. cbn zeta.
  unfold on_mount, populate_extensions_work, mount_results.
  cbn [search_query set_loading api_handler shown]. rewrite Hq.
  unfold search_extensions, _call_api, post, bind, try_except, clear, record,
    modify, lift, is_set, ret, raise_.
  cbn. rewrite Hr, Hstop. cbn. by destruct (shown v).
Qed.

Lemma stop_during_search_shows_nothing_witness :
  fst (on_mount (stopped sample_data) (SearchScreen_init ∅ (Some "python")))
  = Returned.
Proof.
  exact (proj1 (stop_during_search_shows_nothing
                  (stopped sample_data) (SearchScreen_init ∅ (Some "python"))
                  "p" "ython" (answer 200 sample_data)
                  eq_refl eq_refl eq_refl)).
Defined.

End ScreenMore.
